(** * doxdox-parser-dox: the comment-to-entity pipeline of [src/index.js]

    A shallow embedding of the four string formatters, of the index of
    linkable objects and of [parser], followed by the properties of the
    specification that were checked against them.

    JavaScript strings are sequences of UTF-16 code units: a string is a
    [list N] here, and a literal is written [str "..."].  The object
    [linkableObjects] is a plain object: its own properties are a [gmap]
    from names to identifiers, and reading and writing it go through
    [getProperty] and [setProperty], which know the members that every
    plain object inherits from [Object.prototype]. *)

From Stdlib Require Import ZArith NArith List Ascii String Sorted Permutation Lia.
From Stdlib Require DecimalN.
From stdpp Require Import gmap list.

Abbreviation jsstring := (list N).

(** ** Strings *)

Fixpoint str (s : string) : jsstring :=
  match s with
  | EmptyString => []
  | String a r => N_of_ascii a :: str r
  end.

Definition chr (a : ascii) : N := N_of_ascii a.

Definition HYPHEN : N := Eval cbv in chr "-".
Definition PERIOD : N := Eval cbv in chr ".".
Definition UNDERSCORE : N := Eval cbv in chr "_".
Definition LBRACKET : N := Eval cbv in chr "[".
Definition RBRACKET : N := Eval cbv in chr "]".
Definition LBRACE : N := Eval cbv in chr "{".
Definition RBRACE : N := Eval cbv in chr "}".
Definition SPACE : N := Eval cbv in chr " ".
Definition LT : N := Eval cbv in chr "<".
Definition GT : N := Eval cbv in chr ">".
Definition AMP : N := Eval cbv in chr "&".
Definition HASH : N := Eval cbv in chr "#".
Definition SEMICOLON : N := Eval cbv in chr ";".

Definition isUpper (c : N) : bool := (65 <=? c)%N && (c <=? 90)%N.
Definition isLower (c : N) : bool := (97 <=? c)%N && (c <=? 122)%N.
Definition isDigit (c : N) : bool := (48 <=? c)%N && (c <=? 57)%N.

(** [\w] of a pattern without the [i] flag: [A-Za-z0-9_]. *)
Definition isWord (c : N) : bool :=
  isUpper c || isLower c || isDigit c || (c =? UNDERSCORE)%N.

(** [[a-z]] under the [i] flag (no [u] flag): the ASCII letters. *)
Definition isLetter (c : N) : bool := isUpper c || isLower c.

Definition isBracket (c : N) : bool := (c =? LBRACKET)%N || (c =? RBRACKET)%N.

Fixpoint startsWith (p s : jsstring) : bool :=
  match p, s with
  | [], _ => true
  | _ :: _, [] => false
  | a :: p', b :: s' => (a =? b)%N && startsWith p' s'
  end.

Fixpoint firstPrefix (alts : list jsstring) (s : jsstring) : option jsstring :=
  match alts with
  | [] => None
  | p :: rest => if startsWith p s then Some p else firstPrefix rest s
  end.

(** [s.replace(/p1|p2|.../g, rep)] for literal, non-empty alternatives: the
    matches are taken from left to right and do not overlap. [skip] counts
    the units of the current match that are still to be passed over. *)
Fixpoint replaceLit (alts : list jsstring) (rep : jsstring) (skip : nat)
    (s : jsstring) : jsstring :=
  match s with
  | [] => []
  | c :: r =>
      match skip with
      | S k => replaceLit alts rep k r
      | O =>
          match firstPrefix alts s with
          | Some p => rep ++ replaceLit alts rep (length p - 1) r
          | None => c :: replaceLit alts rep 0 r
          end
      end
  end.

Definition replaceAll (pat rep s : jsstring) : jsstring :=
  replaceLit [pat] rep 0 s.

(** [s.replace(pat, rep)] with a string pattern: the first occurrence only. *)
Fixpoint replaceFirst (pat rep s : jsstring) : jsstring :=
  if startsWith pat s then rep ++ drop (length pat) s
  else match s with
       | [] => []
       | c :: r => c :: replaceFirst pat rep r
       end.

(** [s.replace(/[class]/g, '')]: the units of the class are dropped. *)
Definition removeUnits (cls : N -> bool) (s : jsstring) : jsstring :=
  List.filter (fun c => negb (cls c)) s.

(** [Array.prototype.join]. *)
Fixpoint join (sep : jsstring) (parts : list jsstring) : jsstring :=
  match parts with
  | [] => []
  | [p] => p
  | p :: rest => p ++ sep ++ join sep rest
  end.

(** The decimal digits of a code unit, as [charCodeAt(0)] is printed. *)
Fixpoint digitsOf (d : Decimal.uint) : jsstring :=
  match d with
  | Decimal.Nil => []
  | Decimal.D0 d => 48%N :: digitsOf d
  | Decimal.D1 d => 49%N :: digitsOf d
  | Decimal.D2 d => 50%N :: digitsOf d
  | Decimal.D3 d => 51%N :: digitsOf d
  | Decimal.D4 d => 52%N :: digitsOf d
  | Decimal.D5 d => 53%N :: digitsOf d
  | Decimal.D6 d => 54%N :: digitsOf d
  | Decimal.D7 d => 55%N :: digitsOf d
  | Decimal.D8 d => 56%N :: digitsOf d
  | Decimal.D9 d => 57%N :: digitsOf d
  end.

Definition decimal (n : N) : jsstring := digitsOf (N.to_uint n).

(** [a > b] on strings: the order of the code units, a proper prefix first. *)
Fixpoint strGt (a b : jsstring) : bool :=
  match a, b with
  | [], _ => false
  | _ :: _, [] => true
  | x :: a', y :: b' =>
      if (x =? y)%N then strGt a' b' else (y <? x)%N
  end.

(** ** The formatters *)

(** [formatStringForName]: [/module\.exports\.|\.prototype|\(\)/gu]
    removed, and the marker put in front for a callback. *)
Definition namePatterns : list jsstring :=
  [str "module.exports."; str ".prototype"; str "()"].

Definition stripNamePatterns (s : jsstring) : jsstring :=
  replaceLit namePatterns [] 0 s.

Definition formatStringForName (content type : jsstring) : jsstring :=
  let name := stripNamePatterns content in
  if decide (type = str "callback") then str "{Function} " ++ name else name.

(** [formatStringForParam]: [/\[|\]/gu] removed. *)
Definition formatStringForParam (content : jsstring) : jsstring :=
  removeUnits isBracket content.

(** [toLowerCase], unit by unit. It is exact on ASCII and on the two units
    whose lower-case form holds an ASCII letter (U+0130 and U+212A). Every
    other unit above 127 is left in place: its lower-case form is again
    made of units above 127, and [formatStringForUID], the only caller,
    turns all of those into the hyphen in its next step. *)
Definition lowerUnit (c : N) : jsstring :=
  if isUpper c then [(c + 32)%N]
  else if (c =? 304)%N then [105%N; 775%N]
  else if (c =? 8490)%N then [107%N]
  else [c].

Definition toLowerCase (s : jsstring) : jsstring := flat_map lowerUnit s.

(** [[^\w\.]]: what the identifier does not keep. *)
Definition isUidUnit (c : N) : bool := isWord c || (c =? PERIOD)%N.

(** [.replace(/[^\w\.]+/gu, '-')]: [inRun] tells that the previous unit
    belonged to the run being replaced. *)
Fixpoint collapseRuns (inRun : bool) (s : jsstring) : jsstring :=
  match s with
  | [] => []
  | c :: r =>
      if isUidUnit c then c :: collapseRuns false r
      else if inRun then collapseRuns true r
      else HYPHEN :: collapseRuns true r
  end.

(** [-$]: the last unit goes when it is a hyphen. *)
Fixpoint stripTrailingHyphen (s : jsstring) : jsstring :=
  match s with
  | [] => []
  | [c] => if (c =? HYPHEN)%N then [] else [c]
  | c :: r => c :: stripTrailingHyphen r
  end.

(** [^-]: the first unit goes when it is a hyphen. *)
Definition stripLeadingHyphen (s : jsstring) : jsstring :=
  match s with
  | c :: r => if (c =? HYPHEN)%N then r else s
  | [] => []
  end.

(** [.replace(/^-|-$/gu, '')]: a hyphen at the start goes, then a hyphen
    at the end of what is left. *)
Definition stripHyphens (s : jsstring) : jsstring :=
  stripTrailingHyphen (stripLeadingHyphen s).

Definition formatStringForUID (content : jsstring) : jsstring :=
  stripHyphens (collapseRuns false (toLowerCase content)).

(** ** Records *)

Record Ctx := {
  ctx_type : jsstring;
  ctx_string : jsstring
}.

Record Tag := {
  t_type : jsstring;
  t_string : jsstring;
  t_name : jsstring;
  t_optional : bool;
  t_types : list jsstring;
  t_description : jsstring
}.

(** A comment as [dox.parseComments] returns it. [m_empty] is the property
    [empty] that [parser] writes on the comment itself; a comment comes
    without it, which reads as [false]. *)
Record ParsedComment := {
  m_description : jsstring;      (* description.full *)
  m_tags : list Tag;
  m_ctx : option Ctx;
  m_isPrivate : bool;
  m_ignore : bool;
  m_line : Z;
  m_empty : bool
}.

Record ParamDoc := {
  p_name : jsstring;
  p_isOptional : bool;
  p_types : list jsstring;
  p_description : jsstring
}.

Record ReturnDoc := {
  r_types : list jsstring;
  r_description : jsstring
}.

Record TagGroups := {
  g_example : list jsstring;
  g_param : list ParamDoc;
  g_property : list ParamDoc;
  g_return : list ReturnDoc
}.

(** The object [params] that the callback of [methods.map] returns. A
    property that was never assigned is [None], or [false] for the two
    flags, which are only ever tested for truth. *)
Record Entity := {
  e_isPrivate : bool;
  e_description : jsstring;
  e_empty : bool;
  e_line : Z;
  e_params : jsstring;
  e_tags : TagGroups;
  e_uid : option jsstring;
  e_type : option jsstring;
  e_name : option jsstring;
  e_notFunction : bool;
  e_toBottom : bool
}.

Definition setIdentity (uid type name : jsstring) (p : Entity) : Entity :=
  {| e_isPrivate := e_isPrivate p; e_description := e_description p;
     e_empty := e_empty p; e_line := e_line p; e_params := e_params p;
     e_tags := e_tags p; e_uid := Some uid; e_type := Some type;
     e_name := Some name; e_notFunction := e_notFunction p;
     e_toBottom := e_toBottom p |}.

Definition setNotFunction (p : Entity) : Entity :=
  {| e_isPrivate := e_isPrivate p; e_description := e_description p;
     e_empty := e_empty p; e_line := e_line p; e_params := e_params p;
     e_tags := e_tags p; e_uid := e_uid p; e_type := e_type p;
     e_name := e_name p; e_notFunction := true;
     e_toBottom := e_toBottom p |}.

Definition setToBottom (p : Entity) : Entity :=
  {| e_isPrivate := e_isPrivate p; e_description := e_description p;
     e_empty := e_empty p; e_line := e_line p; e_params := e_params p;
     e_tags := e_tags p; e_uid := e_uid p; e_type := e_type p;
     e_name := e_name p; e_notFunction := e_notFunction p;
     e_toBottom := true |}.

Definition setParams (s : jsstring) (p : Entity) : Entity :=
  {| e_isPrivate := e_isPrivate p; e_description := e_description p;
     e_empty := e_empty p; e_line := e_line p; e_params := s;
     e_tags := e_tags p; e_uid := e_uid p; e_type := e_type p;
     e_name := e_name p; e_notFunction := e_notFunction p;
     e_toBottom := e_toBottom p |}.

(** [method.empty = true]: the write goes to the comment. *)
Definition markEmpty (m : ParsedComment) : ParsedComment :=
  {| m_description := m_description m; m_tags := m_tags m; m_ctx := m_ctx m;
     m_isPrivate := m_isPrivate m; m_ignore := m_ignore m;
     m_line := m_line m; m_empty := true |}.

Definition hasType (ty : string) (t : Tag) : bool :=
  bool_decide (t_type t = str ty).

(** [isCallbackOrTypedef]. *)
Definition isCallbackOrTypedef (method : ParsedComment) : bool :=
  match m_tags method with
  | [] => false
  | t :: _ => hasType "typedef" t || hasType "callback" t
  end.

(** ** Sorting *)

(** [Array.prototype.sort(comparefn)]. The standard leaves the algorithm
    to the engine; the model is a stable insertion sort that decides by
    the test [comparefn(x, y) < 0] alone: every element is put in front of
    the first one it compares below in the part sorted so far. *)
Section Sort.
Context {A : Type} (comparefn : A -> A -> Z).

Fixpoint sortInsert (x : A) (sorted : list A) : list A :=
  match sorted with
  | [] => [x]
  | y :: rest =>
      if (comparefn x y <? 0)%Z then x :: sorted
      else y :: sortInsert x rest
  end.

Definition Array_sort (l : list A) : list A :=
  fold_left (fun sorted x => sortInsert x sorted) l [].
End Sort.

Definition optGt (a b : option jsstring) : bool :=
  match a, b with
  | Some x, Some y => strGt x y
  | _, _ => false
  end.

(** The comparison function given to [sort]; a boolean result is read as
    the number 1 or 0. *)
Definition compareEntities (a b : Entity) : Z :=
  if e_toBottom a && e_toBottom b then
    (if optGt (e_type a) (e_type b) then 1 else 0)%Z
  else if e_toBottom a then 1%Z
  else if e_toBottom b then (-1)%Z
  else (e_line a - e_line b)%Z.

(** ** The object [linkableObjects] *)

(** The object is created as [{}]: it has the own properties that [parser]
    gives it, and inherits the members of [Object.prototype]. These are
    the accessor [__proto__] and eleven functions. *)
Definition PROTO : jsstring := str "__proto__".

Definition prototypeFunctions : list jsstring :=
  [str "constructor"; str "__defineGetter__"; str "__defineSetter__";
   str "hasOwnProperty"; str "__lookupGetter__"; str "__lookupSetter__";
   str "isPrototypeOf"; str "propertyIsEnumerable"; str "toString";
   str "valueOf"; str "toLocaleString"].

(** What [linkableObjects[key]] can be: an identifier stored by [parser],
    the function inherited under that name, or [Object.prototype] itself,
    which the getter of [__proto__] returns. *)
Inductive Value :=
  | VString (s : jsstring)
  | VFunction (name : jsstring)
  | VObjectPrototype.

(** The name is inherited from [Object.prototype]. *)
Definition inherited (key : jsstring) : bool :=
  bool_decide (key = PROTO) || bool_decide (key ∈ prototypeFunctions).

(** [linkableObjects[key]]: the own property, or else the inherited
    member; [None] is [undefined]. *)
Definition getProperty (own : gmap jsstring jsstring) (key : jsstring)
    : option Value :=
  match own !! key with
  | Some s => Some (VString s)
  | None =>
      if bool_decide (key = PROTO) then Some VObjectPrototype
      else if bool_decide (key ∈ prototypeFunctions) then Some (VFunction key)
      else None
  end.

(** [linkableObjects[key] = value] with a string value. Under the name
    [__proto__] the assignment calls the inherited setter, which ignores a
    value that is not an object: nothing is stored. Under any other name
    an own property is created or overwritten. *)
Definition setProperty (own : gmap jsstring jsstring) (key value : jsstring)
    : gmap jsstring jsstring :=
  if bool_decide (key = PROTO) then own else <[key := value]> own.

(** The test of a value for truth: of the values at hand only the empty
    string is not true. *)
Definition truthy (v : Value) : bool :=
  match v with
  | VString [] => false
  | _ => true
  end.

(** ** The index of linkable objects *)

Fixpoint dropLetters (s : jsstring) : jsstring :=
  match s with
  | c :: r => if isLetter c then dropLetters r else s
  | [] => []
  end.

(** [.replace(/^\{[a-z]*\}\ /i, '')]: a leading annotation in braces and
    the space after it are removed. *)
Definition stripAnnotation (s : jsstring) : jsstring :=
  match s with
  | c :: r =>
      if (c =? LBRACE)%N then
        match dropLetters r with
        | c1 :: c2 :: rest =>
            if (c1 =? RBRACE)%N && (c2 =? SPACE)%N then rest else s
        | _ => s
        end
      else s
  | [] => s
  end.

Definition linkName (t : Tag) : jsstring :=
  stripAnnotation (formatStringForName (t_string t) (t_type t)).

Definition tagUID (filename : jsstring) (t : Tag) : jsstring :=
  formatStringForUID (filename ++ str "-" ++ t_string t).

(** The body of the first [forEach]: [linkableObjects[name] = uid]. The
    [console.log] it holds for one fixed file name writes nothing to the
    result and is left out. *)
Definition registerLinkable (filename : jsstring)
    (linkableObjects : gmap jsstring jsstring) (method : ParsedComment)
    : gmap jsstring jsstring :=
  if isCallbackOrTypedef method then
    match m_tags method with
    | t :: _ => setProperty linkableObjects (linkName t) (tagUID filename t)
    | [] => linkableObjects
    end
  else linkableObjects.

Definition buildLinkable (filename : jsstring) (methods : list ParsedComment)
    : gmap jsstring jsstring :=
  fold_left (registerLinkable filename) methods ∅.

(** ** Links *)

Definition DQUOTE : N := 34.

Definition isMarkup (c : N) : bool :=
  (c =? LT)%N || (c =? GT)%N || (c =? AMP)%N.

(** ['&#' + i.charCodeAt(0) + ';'] *)
Definition charRef (c : N) : jsstring :=
  [AMP; HASH] ++ decimal c ++ [SEMICOLON].

Definition anchor (uid text : jsstring) : jsstring :=
  str "<a href=" ++ [DQUOTE; HASH] ++ uid ++ [DQUOTE] ++ str ">" ++
  text ++ str "</a>".

Section Parser.
(** The class of the escaping pattern is the range U+00A0 to U+9999 and
    the characters <, > and &. The pattern carries the [i] flag, so it
    also matches a unit above U+9999 that the case table of the engine
    pairs with a unit of the range. That table is not part of the
    repository: [icaseExtra] tells which units above U+9999 it adds.
    Below U+00A0 nothing but the three listed characters matches. *)
Variable icaseExtra : N -> bool.

(** The text that the engine prints for the built-in function found under
    a name of [prototypeFunctions]; its wording is left to the engine. *)
Variable nativeText : jsstring -> jsstring.

Definition needsEscape (c : N) : bool :=
  isMarkup c || ((160 <=? c)%N && ((c <=? 39321)%N || icaseExtra c)).

Definition escapeUnit (c : N) : jsstring :=
  if needsEscape c then charRef c else [c].

Definition escapeHtml (s : jsstring) : jsstring := flat_map escapeUnit s.

(** A value inside a template literal. *)
Definition valueText (v : Value) : jsstring :=
  match v with
  | VString s => s
  | VFunction name => nativeText name
  | VObjectPrototype => str "[object Object]"
  end.

(** [formatStringWithLinkable]: [linkableObjects[string]] is tested for
    truth, and is what the link points to. *)
Definition formatStringWithLinkable (content : jsstring)
    (linkableObjects : gmap jsstring jsstring) : jsstring :=
  let string := removeUnits isBracket content in
  match getProperty linkableObjects string with
  | Some v =>
      if truthy v then anchor (valueText v) string else escapeHtml string
  | None => escapeHtml string
  end.

(** ** The second pass *)

(** [tag.name.match(/\./u)] *)
Definition hasPeriod (s : jsstring) : bool :=
  existsb (fun c => (c =? PERIOD)%N) s.

Definition paramText (tag : Tag) : jsstring :=
  if t_optional tag
  then [LBRACKET] ++ formatStringForParam (t_name tag) ++ [RBRACKET]
  else formatStringForParam (t_name tag).

(** The value of ['params'] in the object literal. *)
Definition paramsString (tags : list Tag) : jsstring :=
  replaceFirst (str ", [") (str "[, ")
    (replaceAll (str "], [") (str ", ")
      (join (str ", ")
        (map paramText
          (List.filter
             (fun tag => hasType "param" tag && negb (hasPeriod (t_name tag)))
             tags)))).

Definition paramDoc (linkableObjects : gmap jsstring jsstring) (tag : Tag)
    : ParamDoc :=
  {| p_name := formatStringForParam (t_name tag);
     p_isOptional := t_optional tag;
     p_types :=
       map (fun type => formatStringWithLinkable type linkableObjects)
           (t_types tag);
     p_description := t_description tag |}.

Definition returnDoc (linkableObjects : gmap jsstring jsstring) (tag : Tag)
    : ReturnDoc :=
  {| r_types :=
       map (fun type => formatStringWithLinkable type linkableObjects)
           (t_types tag);
     r_description := t_description tag |}.

Definition tagGroups (linkableObjects : gmap jsstring jsstring)
    (tags : list Tag) : TagGroups :=
  {| g_example := map t_string (List.filter (hasType "example") tags);
     g_param :=
       map (paramDoc linkableObjects) (List.filter (hasType "param") tags);
     g_property :=
       map (paramDoc linkableObjects)
           (List.filter (hasType "property") tags);
     g_return :=
       map (returnDoc linkableObjects)
           (List.filter
              (fun tag => hasType "return" tag || hasType "returns" tag)
              tags) |}.

Definition isNil {X : Type} (l : list X) : bool :=
  match l with [] => true | _ => false end.

(** The object literal [params] before the classification. *)
Definition baseEntity (linkableObjects : gmap jsstring jsstring)
    (method : ParsedComment) : Entity :=
  {| e_isPrivate := m_isPrivate method;
     e_description := m_description method;
     e_empty := isNil (m_description method) && isNil (m_tags method);
     e_line := m_line method;
     e_params := paramsString (m_tags method);
     e_tags := tagGroups linkableObjects (m_tags method);
     e_uid := None; e_type := None; e_name := None;
     e_notFunction := false; e_toBottom := false |}.

(** [name] of a comment with a context: the context string, behind the
    target of a leading [memberof] tag. *)
Definition memberName (method : ParsedComment) (c : Ctx) : jsstring :=
  match m_tags method with
  | t :: _ =>
      if hasType "memberof" t
      then replaceFirst (str "#") [] (t_string t) ++ str "." ++ ctx_string c
      else ctx_string c
  | [] => ctx_string c
  end.

(** The callback of [methods.map]: the object it returns, and the comment
    it was given as the callback leaves it. *)
Definition buildEntity (filename : jsstring)
    (linkableObjects : gmap jsstring jsstring) (method : ParsedComment)
    : Entity * ParsedComment :=
  let params := baseEntity linkableObjects method in
  match m_ctx method with
  | Some c =>
      let params :=
        setIdentity
          (formatStringForUID (filename ++ str "-" ++ ctx_string c))
          (ctx_type c)
          (formatStringForName (memberName method c) [])
          params in
      (if decide (ctx_type c = str "declaration")
       then setNotFunction params else params, method)
  | None =>
      if isCallbackOrTypedef method then
        match m_tags method with
        | t :: _ =>
            let params :=
              setToBottom
                (setIdentity (tagUID filename t) (t_type t)
                   (formatStringForName (t_string t) (t_type t)) params) in
            (if hasType "typedef" t
             then setParams [] (setNotFunction params) else params, method)
        | [] => (params, method)
        end
      else (params, markEmpty method)
  end.

(** [parser], from the comments that [dox.parseComments] found in
    [content]. *)
Definition parser (comments : list ParsedComment) (filename : jsstring)
    : list Entity :=
  let methods := List.filter (fun method => negb (m_ignore method)) comments in
  let linkableObjects := buildLinkable filename methods in
  Array_sort compareEntities
    (List.filter (fun method => negb (e_empty method))
       (map (fun method => fst (buildEntity filename linkableObjects method))
            methods)).
End Parser.

(** * Predicates and reference definitions used by the statements *)

(** ** Shape of an identifier *)

(** A unit that an identifier keeps: a lower-case letter, a digit, the
    underscore or the period. *)
Definition isSlugUnit (c : N) : bool := isUidUnit c && negb (isUpper c).

(** Kept units and single hyphens, each hyphen followed by a kept unit;
    [afterHyphen] tells that a hyphen may not come next. *)
Fixpoint slugFrom (afterHyphen : bool) (s : jsstring) : bool :=
  match s with
  | [] => negb afterHyphen
  | c :: r =>
      if isSlugUnit c then slugFrom false r
      else (c =? HYPHEN)%N && negb afterHyphen && slugFrom true r
  end.

(** The shape of an identifier: kept units separated by single hyphens,
    with no hyphen at either end. *)
Definition isSlug (s : jsstring) : bool :=
  match s with [] => true | _ => slugFrom true s end.

(** The same without the condition on the last unit. *)
Fixpoint collapsedFrom (afterHyphen : bool) (s : jsstring) : bool :=
  match s with
  | [] => true
  | c :: r =>
      if isSlugUnit c then collapsedFrom false r
      else (c =? HYPHEN)%N && negb afterHyphen && collapsedFrom true r
  end.

(** An occurrence of one of the alternatives somewhere in [s]. *)
Fixpoint hasMatch (alts : list jsstring) (s : jsstring) : bool :=
  match s with
  | [] => false
  | _ :: r =>
      match firstPrefix alts s with
      | Some _ => true
      | None => hasMatch alts r
      end
  end.

(** A text in which no markup character stands for itself: it is made of
    units other than <, > and &, and of numeric character references. *)
Inductive escapedText : jsstring -> Prop :=
  | escaped_nil : escapedText []
  | escaped_plain c s :
      isMarkup c = false -> escapedText s -> escapedText (c :: s)
  | escaped_ref n s : escapedText s -> escapedText (charRef n ++ s).

(** The test of [formatStringWithLinkable]: [linkableObjects[key]] is
    true, so the link branch is taken. *)
Definition isLinked (linkableObjects : gmap jsstring jsstring)
    (key : jsstring) : bool :=
  match getProperty linkableObjects key with
  | Some v => truthy v
  | None => false
  end.

(** The class of the escaping pattern, as it is written. *)
Definition inEscapeClass (c : N) : bool :=
  isMarkup c || ((160 <=? c)%N && (c <=? 39321)%N).

Definition byLine (a b : Entity) : Prop := (e_line a <= e_line b)%Z.

(** The sequence is made of the entities without [toBottom], in ascending
    order of their lines, followed by the entities with [toBottom]. *)
Definition arranged (l : list Entity) : Prop :=
  exists normal bottom,
    l = normal ++ bottom /\
    Forall (fun e => e_toBottom e = false) normal /\
    Forall (fun e => e_toBottom e = true) bottom /\
    StronglySorted byLine normal.

(** The comment is a callback or typedef that registers the name [n]: its
    first pass stores an own property under [n]. Under the name
    [__proto__] nothing is stored. *)
Definition declares (method : ParsedComment) (n : jsstring) : bool :=
  match m_tags method with
  | t :: _ =>
      isCallbackOrTypedef method && bool_decide (linkName t = n) &&
      negb (bool_decide (n = PROTO))
  | [] => false
  end.

(** The comments that [parser] works on. *)
Definition notIgnored (comments : list ParsedComment) : list ParsedComment :=
  List.filter (fun method => negb (m_ignore method)) comments.

(** The name a comment declares: the string of its context, or the string
    of its first tag when it is a callback or typedef without context. *)
Definition declaredName (method : ParsedComment) : option jsstring :=
  match m_ctx method with
  | Some c => Some (ctx_string c)
  | None =>
      if isCallbackOrTypedef method then
        match m_tags method with
        | t :: _ => Some (t_string t)
        | [] => None
        end
      else None
  end.

(** The identifier as the specification words it: the lower-cased string
    is cut into its maximal runs of kept units (letters, digits,
    underscore, period) and of other units, every run of other units
    becomes one hyphen, and the hyphens at both ends are taken away. *)
Fixpoint runs (s : jsstring) : list (bool * jsstring) :=
  match s with
  | [] => []
  | c :: r =>
      match runs r with
      | (b, g) :: rest =>
          if Bool.eqb b (isUidUnit c) then (b, c :: g) :: rest
          else (isUidUnit c, [c]) :: (b, g) :: rest
      | [] => [(isUidUnit c, [c])]
      end
  end.

Definition hyphenate (run : bool * jsstring) : jsstring :=
  if fst run then snd run else [HYPHEN].

Fixpoint stripLeadingAll (s : jsstring) : jsstring :=
  match s with
  | c :: r => if (c =? HYPHEN)%N then stripLeadingAll r else s
  | [] => []
  end.

Fixpoint stripTrailingAll (s : jsstring) : jsstring :=
  match s with
  | [] => []
  | c :: r =>
      match stripTrailingAll r with
      | [] => if (c =? HYPHEN)%N then [] else [c]
      | r' => c :: r'
      end
  end.

Definition slugSpec (s : jsstring) : jsstring :=
  stripTrailingAll
    (stripLeadingAll (flat_map hyphenate (runs (toLowerCase s)))).

(** A wording for the built-in functions, as one engine prints them. *)
Definition sampleText (name : jsstring) : jsstring :=
  str "function " ++ name ++ str "() { [native code] }".

(** Sample records. *)
Definition paramTag (name : string) (optional : bool) (types : list jsstring)
    : Tag :=
  {| t_type := str "param"; t_string := []; t_name := str name;
     t_optional := optional; t_types := types; t_description := [] |}.

Definition declTag (type text : string) : Tag :=
  {| t_type := str type; t_string := str text; t_name := [];
     t_optional := false; t_types := []; t_description := [] |}.

Definition comment (description : string) (tags : list Tag)
    (ctx : option Ctx) (line : Z) : ParsedComment :=
  {| m_description := str description; m_tags := tags; m_ctx := ctx;
     m_isPrivate := false; m_ignore := false; m_line := line;
     m_empty := false |}.

Definition ignored (method : ParsedComment) : ParsedComment :=
  {| m_description := m_description method; m_tags := m_tags method;
     m_ctx := m_ctx method; m_isPrivate := m_isPrivate method;
     m_ignore := true; m_line := m_line method; m_empty := m_empty method |}.

Definition methodCtx (name : string) : option Ctx :=
  Some {| ctx_type := str "method"; ctx_string := str name |}.

(** The record of the example of the specification, for [lib.js]. *)
Definition exampleFoo : ParsedComment :=
  comment "does X" [paramTag "a" false [str "String"]] (methodCtx "foo") 1.

(** A typedef without context, with a parameter tag of its own. *)
Definition exampleOptions : ParsedComment :=
  comment "" [declTag "typedef" "Options"; paramTag "x" false []] None 2.

(** A method whose parameter is of the type [Options]. *)
Definition exampleUser : ParsedComment :=
  comment "uses" [paramTag "o" false [str "Options"]] (methodCtx "run") 5.

(** A typedef without context whose name is [__proto__], and a method
    whose parameter is of that type. *)
Definition exampleProto : ParsedComment :=
  comment "" [declTag "typedef" "__proto__"; paramTag "x" false []] None 4.

Definition exampleProtoUser : ParsedComment :=
  comment "uses" [paramTag "p" false [str "__proto__"]] (methodCtx "g") 6.

(** A typedef whose name is [toString], and a method whose parameter is of
    that type. *)
Definition exampleToString : ParsedComment :=
  comment "" [declTag "typedef" "toString"] None 2.

Definition exampleToStringUser : ParsedComment :=
  comment "uses" [paramTag "f" false [str "toString"]] (methodCtx "h") 8.

(** A comment with a description and nothing else. *)
Definition exampleOrphan : ParsedComment := comment "text" [] None 1.

(** The parameters as C7 words them: every [", ["] is turned around. *)
Definition paramsStringAllTurned (tags : list Tag) : jsstring :=
  replaceAll (str ", [") (str "[, ")
    (replaceAll (str "], [") (str ", ")
      (join (str ", ")
        (map paramText
          (List.filter
             (fun tag => hasType "param" tag && negb (hasPeriod (t_name tag)))
             tags)))).

(** Required and optional parameters in turn. *)
Definition exampleMixed : list Tag :=
  [paramTag "a" false []; paramTag "b" true []; paramTag "c" false [];
   paramTag "d" true []; paramTag "d.e" false []].

(** The parameter names with one pair of brackets around every maximal
    group of neighbouring optional names. An item is a name and whether it
    is optional; [inGroup] tells that a bracket is open. *)
Fixpoint groupedTail (inGroup : bool) (items : list (jsstring * bool))
    : jsstring :=
  match items with
  | [] => if inGroup then [RBRACKET] else []
  | (name, optional) :: rest =>
      (if inGroup && negb optional then [RBRACKET] else []) ++ str ", " ++
      (if negb inGroup && optional then [LBRACKET] else []) ++ name ++
      groupedTail optional rest
  end.

Definition grouped (items : list (jsstring * bool)) : jsstring :=
  match items with
  | [] => []
  | (name, optional) :: rest =>
      (if optional then [LBRACKET] else []) ++ name ++
      groupedTail optional rest
  end.

(** The param tags that the parameters are made of, and their items. *)
Definition shownParams (tags : list Tag) : list Tag :=
  List.filter
    (fun tag => hasType "param" tag && negb (hasPeriod (t_name tag))) tags.

Definition paramItem (tag : Tag) : jsstring * bool :=
  (formatStringForParam (t_name tag), t_optional tag).

(** The pattern of the first clean-up, and the pieces of the joined text. *)
Definition closeOpen : jsstring := str "], [".

Definition wrapItem (item : jsstring * bool) : jsstring :=
  if snd item then [LBRACKET] ++ fst item ++ [RBRACKET] else fst item.

Definition joinTail (items : list (jsstring * bool)) : jsstring :=
  flat_map (fun item => str ", " ++ wrapItem item) items.

Definition plainNames (items : list (jsstring * bool)) : Prop :=
  Forall (fun item => Forall (fun c => isBracket c = false) (fst item)) items.

(** A typedef without context: the one comment whose parameters are
    cleared. *)
Definition isBareTypedef (method : ParsedComment) : bool :=
  match m_ctx method, m_tags method with
  | None, t :: _ => hasType "typedef" t
  | _, _ => false
  end.

(** * Definitions used by the further properties *)

(** The units of a string that the identifier keeps. *)
Definition keptUnits (s : jsstring) : jsstring := List.filter isUidUnit s.

(** The state of [collapseRuns] after it has gone through [s]. *)
Fixpoint endState (inRun : bool) (s : jsstring) : bool :=
  match s with
  | [] => inRun
  | c :: r => endState (negb (isUidUnit c)) r
  end.

(** The first tags of the comments that register the name [n], in the
    order of the comments. *)
Definition declarations (n : jsstring) (methods : list ParsedComment)
    : list Tag :=
  flat_map
    (fun method =>
       match m_tags method with
       | t :: _ => if declares method n then [t] else []
       | [] => []
       end)
    methods.

(** The comments that come out as entities: not ignored, and with a
    description or a tag. *)
Definition isKept (method : ParsedComment) : bool :=
  negb (m_ignore method) &&
  negb (isNil (m_description method) && isNil (m_tags method)).

(** A type as the entities carry it: the hyperlink to an identifier of the
    index, the hyperlink to the text of a member inherited from
    [Object.prototype] under a name that the index does not hold, or a text
    in which no markup character stands for itself. *)
Definition resolvedType (nativeText : jsstring -> jsstring)
    (linkableObjects : gmap jsstring jsstring) (type : jsstring) : Prop :=
  (exists key uid, linkableObjects !! key = Some uid /\ uid <> [] /\
                   type = anchor uid key) \/
  (exists key v, linkableObjects !! key = None /\ inherited key = true /\
                 getProperty linkableObjects key = Some v /\
                 type = anchor (valueText nativeText v) key) \/
  (escapedText type /\ ~ In LT type /\ ~ In GT type).

(** The names of param tags as the parameters show them, and the same
    names each behind a comma and a space. *)
Definition shownNames (tags : list Tag) : list jsstring :=
  map (fun tag => formatStringForParam (t_name tag)) tags.

Definition sepNames (names : list jsstring) : jsstring :=
  flat_map (fun n => str ", " ++ n) names.

(** A text without an opening square bracket. *)
Definition noOpen (s : jsstring) : Prop := Forall (fun c => c <> LBRACKET) s.

(** * Properties *)

(** ** The identifier formatter *)

Example uid_example :
  formatStringForUID (str "example string") = str "example-string".
Proof. reflexivity. Qed.

Example uid_lib : formatStringForUID (str "lib.js-foo") = str "lib.js-foo".
Proof. reflexivity. Qed.

Example name_example :
  formatStringForName (str "module.exports.parser") [] = str "parser".
Proof. reflexivity. Qed.

Lemma lowerUnit_not_upper c x : In x (lowerUnit c) -> isUpper x = false.
Proof.
  unfold lowerUnit.
  destruct (isUpper c) eqn:Hu.
  - intros [<-|[]]. unfold isUpper in *.
    apply andb_true_iff in Hu as [H1 H2].
    apply N.leb_le in H1, H2. apply andb_false_iff. right.
    apply N.leb_gt. lia.
  - destruct (c =? 304)%N eqn:H1.
    + intros [<-|[<-|[]]]; reflexivity.
    + destruct (c =? 8490)%N eqn:H2.
      * intros [<-|[]]; reflexivity.
      * intros [<-|[]]; assumption.
Qed.

Lemma toLowerCase_not_upper s :
  Forall (fun x => isUpper x = false) (toLowerCase s).
Proof.
  apply Forall_forall. intros x Hx. apply list_elem_of_In in Hx.
  apply in_flat_map in Hx as (c & _ & Hc).
  eapply lowerUnit_not_upper; eauto.
Qed.

Lemma collapseRuns_collapsed s : forall b,
  Forall (fun x => isUpper x = false) s ->
  collapsedFrom b (collapseRuns b s) = true.
Proof.
  induction s as [|c r IH]; intros b Hs; [reflexivity|].
  inversion Hs as [|? ? Hc Hr]; subst. simpl.
  destruct (isUidUnit c) eqn:Hu.
  - simpl. unfold isSlugUnit. rewrite Hu, Hc. simpl. auto.
  - destruct b; [auto|].
    simpl. replace (isSlugUnit HYPHEN) with false by reflexivity.
    simpl. auto.
Qed.

Lemma stripLeading_collapsed s :
  collapsedFrom false s = true -> collapsedFrom true (stripLeadingHyphen s) = true.
Proof.
  destruct s as [|c r]; [auto|]. simpl.
  destruct (isSlugUnit c) eqn:Hs.
  - destruct (c =? HYPHEN)%N eqn:Hh.
    + apply N.eqb_eq in Hh. subst. discriminate.
    + simpl. rewrite Hs. auto.
  - intros H. apply andb_true_iff in H as [H1 H2].
    apply andb_true_iff in H1 as [H1 _]. rewrite H1. exact H2.
Qed.

Lemma stripTrailing_slug s : forall b,
  collapsedFrom b s = true ->
  match stripTrailingHyphen s with
  | [] => True
  | _ => slugFrom b (stripTrailingHyphen s) = true
  end.
Proof.
  induction s as [|c r IH]; intros b H; [exact I|].
  destruct r as [|d r'].
  - cbn [stripTrailingHyphen]. cbn [collapsedFrom] in H.
    destruct (c =? HYPHEN)%N eqn:Hh; [exact I|].
    cbn [slugFrom]. destruct (isSlugUnit c); [reflexivity|].
    discriminate.
  - change (stripTrailingHyphen (c :: d :: r')) with (c :: stripTrailingHyphen (d :: r')).
    cbn [slugFrom]. cbn [collapsedFrom] in H.
    assert (Hne : stripTrailingHyphen (d :: r') = [] -> isSlugUnit d = false).
    { destruct r'; cbn [stripTrailingHyphen]; [|discriminate].
      destruct (d =? HYPHEN)%N eqn:Hh; [|discriminate].
      apply N.eqb_eq in Hh. subst. reflexivity. }
    remember (stripTrailingHyphen (d :: r')) as t eqn:E.
    destruct (isSlugUnit c).
    + specialize (IH false H). destruct t; [reflexivity|exact IH].
    + apply andb_true_iff in H as [H1 H2]. rewrite H1.
      specialize (IH true H2).
      destruct t; [|exact IH].
      exfalso. cbn [collapsedFrom] in H2. rewrite (Hne eq_refl) in H2.
      rewrite andb_false_r in H2. discriminate.
Qed.

Lemma formatStringForUID_isSlug x : isSlug (formatStringForUID x) = true.
Proof.
  unfold formatStringForUID, stripHyphens, isSlug.
  pose proof (collapseRuns_collapsed _ false (toLowerCase_not_upper x)) as H.
  apply stripLeading_collapsed in H.
  apply stripTrailing_slug in H.
  destruct (stripTrailingHyphen _); auto.
Qed.

Lemma slug_lower s : forall b, slugFrom b s = true -> toLowerCase s = s.
Proof.
  induction s as [|c r IH]; intros b H; [reflexivity|].
  cbn [slugFrom] in H. unfold toLowerCase in *. cbn [flat_map].
  assert (Hc : lowerUnit c = [c]).
  { unfold lowerUnit. destruct (isSlugUnit c) eqn:Hs.
    - unfold isSlugUnit in Hs. apply andb_true_iff in Hs as [Hu Hn].
      apply negb_true_iff in Hn. rewrite Hn.
      unfold isUidUnit, isWord, isUpper, isLower, isDigit in Hu.
      destruct (c =? 304)%N eqn:E1; [apply N.eqb_eq in E1; subst; discriminate|].
      destruct (c =? 8490)%N eqn:E2; [apply N.eqb_eq in E2; subst; discriminate|].
      reflexivity.
    - apply andb_true_iff in H as [H _]. apply andb_true_iff in H as [H _].
      apply N.eqb_eq in H. subst. reflexivity. }
  rewrite Hc. cbn [app]. f_equal.
  destruct (isSlugUnit c); [eauto|].
  apply andb_true_iff in H as [_ H]. eauto.
Qed.

Lemma isSlugUnit_uid c : isSlugUnit c = true -> isUidUnit c = true.
Proof. unfold isSlugUnit. intros H. apply andb_true_iff in H. tauto. Qed.

Lemma slug_collapse s : forall b,
  slugFrom b s = true -> collapseRuns b s = s /\ collapseRuns false s = s.
Proof.
  induction s as [|c r IH]; intros b H; [split; reflexivity|].
  cbn [slugFrom] in H. cbn [collapseRuns].
  destruct (isSlugUnit c) eqn:Hs.
  - rewrite (isSlugUnit_uid _ Hs). destruct (IH _ H) as [E _]. rewrite E. auto.
  - apply andb_true_iff in H as [H H2]. apply andb_true_iff in H as [H H1].
    apply N.eqb_eq in H. subst c. apply negb_true_iff in H1. subst b.
    replace (isUidUnit HYPHEN) with false by reflexivity.
    destruct r as [|d r'].
    + discriminate.
    + cbn [slugFrom] in H2. destruct (isSlugUnit d) eqn:Hd.
      * cbn [collapseRuns]. rewrite (isSlugUnit_uid _ Hd).
        destruct (IH true) as [_ E].
        { cbn [slugFrom]. rewrite Hd. exact H2. }
        cbn [collapseRuns] in E. rewrite (isSlugUnit_uid _ Hd) in E.
        rewrite E. auto.
      * rewrite andb_false_r in H2. discriminate.
Qed.

Lemma slug_stripTrailing s : forall b,
  slugFrom b s = true -> stripTrailingHyphen s = s.
Proof.
  induction s as [|c r IH]; intros b H; [reflexivity|].
  cbn [slugFrom] in H. destruct r as [|d r'].
  - cbn [stripTrailingHyphen]. destruct (c =? HYPHEN)%N eqn:Hh; [|reflexivity].
    apply N.eqb_eq in Hh. subst c.
    replace (isSlugUnit HYPHEN) with false in H by reflexivity.
    rewrite andb_comm in H. discriminate.
  - change (stripTrailingHyphen (c :: d :: r')) with (c :: stripTrailingHyphen (d :: r')).
    f_equal. destruct (isSlugUnit c); [eauto|].
    apply andb_true_iff in H as [_ H]. eauto.
Qed.

Lemma slug_fixed r : isSlug r = true -> formatStringForUID r = r.
Proof.
  unfold isSlug, formatStringForUID, stripHyphens.
  destruct r as [|c r']; [reflexivity|]. intros H.
  rewrite (slug_lower _ _ H).
  destruct (slug_collapse _ _ H) as [_ ->].
  assert (Hl : stripLeadingHyphen (c :: r') = c :: r').
  { cbn [stripLeadingHyphen]. cbn [slugFrom] in H.
    destruct (c =? HYPHEN)%N eqn:Hh; [|reflexivity].
    apply N.eqb_eq in Hh. subst c. discriminate. }
  rewrite Hl. eapply slug_stripTrailing; eauto.
Qed.

Lemma formatStringForUID_idempotent x :
  formatStringForUID (formatStringForUID x) = formatStringForUID x.
Proof. apply slug_fixed, formatStringForUID_isSlug. Qed.

(** ** The identifier against its wording *)

Lemma runs_head c r :
  exists g rest, runs (c :: r) = (isUidUnit c, c :: g) :: rest.
Proof.
  cbn [runs]. destruct (runs r) as [|[b g] rest]; [eauto|].
  destruct (Bool.eqb b (isUidUnit c)) eqn:E; [|eauto].
  apply Bool.eqb_prop in E. subst b. eauto.
Qed.

Lemma collapseRuns_runs s :
  collapseRuns false s = flat_map hyphenate (runs s) /\
  collapseRuns true s =
    match s with
    | c :: _ =>
        if isUidUnit c then flat_map hyphenate (runs s)
        else tail (flat_map hyphenate (runs s))
    | [] => []
    end.
Proof.
  induction s as [|c r [IH1 IH2]]; [split; reflexivity|].
  cbn [collapseRuns]. rewrite IH1, IH2.
  destruct r as [|d r'].
  - cbn [runs]. destruct (isUidUnit c) eqn:Hc; cbn; rewrite ?Hc; split; reflexivity.
  - destruct (runs_head d r') as (g & rest & E).
    cbn [runs] in E |- *. rewrite E.
    destruct (isUidUnit c) eqn:Hc, (isUidUnit d) eqn:Hd;
      cbn; rewrite ?Hc; cbn; split; reflexivity.
Qed.

Lemma collapsed_stripLeading s :
  collapsedFrom false s = true -> stripLeadingAll s = stripLeadingHyphen s.
Proof.
  destruct s as [|c r]; [reflexivity|].
  cbn [collapsedFrom stripLeadingAll stripLeadingHyphen].
  destruct (c =? HYPHEN)%N eqn:Hc; [|reflexivity].
  apply N.eqb_eq in Hc. subst c.
  replace (isSlugUnit HYPHEN) with false by reflexivity. cbn [andb negb].
  destruct r as [|d r']; [reflexivity|].
  cbn [collapsedFrom stripLeadingAll].
  destruct (d =? HYPHEN)%N eqn:Hd; [|reflexivity].
  apply N.eqb_eq in Hd. subst d.
  replace (isSlugUnit HYPHEN) with false by reflexivity. discriminate.
Qed.

Lemma stripTrailingHyphen_nil d r :
  stripTrailingHyphen (d :: r) = [] -> d = HYPHEN /\ r = [].
Proof.
  destruct r; cbn [stripTrailingHyphen]; [|discriminate].
  destruct (d =? HYPHEN)%N eqn:Hd; [|discriminate].
  apply N.eqb_eq in Hd. auto.
Qed.

Lemma collapsed_stripTrailing s : forall b,
  collapsedFrom b s = true -> stripTrailingAll s = stripTrailingHyphen s.
Proof.
  induction s as [|c r IH]; intros b H; [reflexivity|].
  destruct r as [|d r'].
  - reflexivity.
  - change (stripTrailingHyphen (c :: d :: r'))
      with (c :: stripTrailingHyphen (d :: r')).
    change (stripTrailingAll (c :: d :: r'))
      with (match stripTrailingAll (d :: r') with
            | [] => if (c =? HYPHEN)%N then [] else [c]
            | r'' => c :: r''
            end).
    cbn [collapsedFrom] in H.
    assert (H' : exists b', collapsedFrom b' (d :: r') = true).
    { destruct (isSlugUnit c); [eauto|].
      apply andb_true_iff in H as [_ H]. eauto. }
    destruct H' as [b' H']. rewrite (IH b' H').
    destruct (stripTrailingHyphen (d :: r')) as [|x t] eqn:E; [|reflexivity].
    apply stripTrailingHyphen_nil in E as [-> ->].
    destruct (c =? HYPHEN)%N eqn:Hc; [|reflexivity].
    apply N.eqb_eq in Hc. subst c. exfalso.
    replace (isSlugUnit HYPHEN) with false in H by reflexivity.
    cbn in H. rewrite andb_false_r in H. discriminate.
Qed.

Lemma formatStringForUID_spec s : formatStringForUID s = slugSpec s.
Proof.
  unfold formatStringForUID, slugSpec, stripHyphens.
  destruct (collapseRuns_runs (toLowerCase s)) as [<- _].
  pose proof (collapseRuns_collapsed _ false (toLowerCase_not_upper s)) as H.
  rewrite (collapsed_stripLeading _ H).
  symmetry. eapply collapsed_stripTrailing.
  apply stripLeading_collapsed. exact H.
Qed.

(** ** The name and parameter formatters *)

Lemma replaceLit_no_match alts rep s :
  hasMatch alts s = false -> replaceLit alts rep 0 s = s.
Proof.
  induction s as [|c r IH]; [reflexivity|].
  cbn [hasMatch replaceLit].
  destruct (firstPrefix alts (c :: r)); [discriminate|].
  intros H. f_equal. auto.
Qed.

Lemma removeUnits_idempotent cls s :
  removeUnits cls (removeUnits cls s) = removeUnits cls s.
Proof.
  unfold removeUnits. induction s as [|c r IH]; [reflexivity|].
  cbn [List.filter]. destruct (negb (cls c)) eqn:E; [|exact IH].
  cbn [List.filter]. rewrite E. f_equal. exact IH.
Qed.

Lemma formatStringForParam_idempotent x :
  formatStringForParam (formatStringForParam x) = formatStringForParam x.
Proof. apply removeUnits_idempotent. Qed.

Lemma formatStringForName_plain x type :
  type <> str "callback" -> formatStringForName x type = stripNamePatterns x.
Proof.
  intros H. unfold formatStringForName.
  destruct (decide (type = str "callback")); [contradiction|reflexivity].
Qed.

(** C8, as amended. The Param and UID formatters are idempotent on every
    string. The Name formatter is idempotent for a kind other than
    callback on every string from which its single pass left no occurrence
    of the three substrings it removes. *)
Theorem C8_formatters_idempotent (x : jsstring) :
  formatStringForParam (formatStringForParam x) = formatStringForParam x /\
  formatStringForUID (formatStringForUID x) = formatStringForUID x /\
  (forall type,
     type <> str "callback" ->
     hasMatch namePatterns (formatStringForName x type) = false ->
     formatStringForName (formatStringForName x type) type =
       formatStringForName x type).
Proof.
  split; [apply formatStringForParam_idempotent|].
  split; [apply formatStringForUID_idempotent|].
  intros type Ht Hm.
  rewrite (formatStringForName_plain x type Ht) in Hm |- *.
  rewrite formatStringForName_plain by assumption.
  apply replaceLit_no_match. exact Hm.
Qed.

Lemma C8_formatters_idempotent_witness :
  formatStringForName
    (formatStringForName (str "module.exports.[parser]()") (str "typedef"))
    (str "typedef") =
  formatStringForName (str "module.exports.[parser]()") (str "typedef").
Proof.
  apply (C8_formatters_idempotent (str "module.exports.[parser]()")).
  - discriminate.
  - reflexivity.
Defined.

(** C8 as stated fails for the Name formatter: one pass over ["(())"]
    leaves ["()"], which a second pass removes; and the callback marker is
    put in front once more by every call. *)
Lemma C8_counterexample :
  formatStringForName (str "(())") [] = str "()" /\
  formatStringForName (formatStringForName (str "(())") []) [] = [] /\
  formatStringForName (str "done") (str "callback") = str "{Function} done" /\
  formatStringForName (formatStringForName (str "done") (str "callback"))
    (str "callback") = str "{Function} {Function} done".
Proof. repeat split; reflexivity. Qed.

(** ** The link formatter *)

Lemma digitsOf_digits d x : In x (digitsOf d) -> isDigit x = true.
Proof.
  induction d; cbn [digitsOf]; intros H; try (destruct H as [<-|H]; [reflexivity|auto]).
  destruct H.
Qed.

Lemma charRef_units n x :
  In x (charRef n) -> x = AMP \/ x = HASH \/ x = SEMICOLON \/ isDigit x = true.
Proof.
  unfold charRef. intros H. apply in_app_or in H as [H|H].
  - destruct H as [<-|[<-|[]]]; auto.
  - apply in_app_or in H as [H|H].
    + right. right. right. eapply digitsOf_digits. exact H.
    + destruct H as [<-|[]]. auto.
Qed.

Section LinkFacts.
Variable icaseExtra : N -> bool.
Variable nativeText : jsstring -> jsstring.

Lemma needsEscape_markup c : needsEscape icaseExtra c = false -> isMarkup c = false.
Proof. unfold needsEscape. intros H. apply orb_false_iff in H. tauto. Qed.

Lemma needsEscape_class c : inEscapeClass c = true -> needsEscape icaseExtra c = true.
Proof.
  unfold inEscapeClass, needsEscape. intros H.
  apply orb_true_iff in H as [H|H]; [rewrite H; reflexivity|].
  apply andb_true_iff in H as [H1 H2]. rewrite H1, H2.
  apply orb_true_r.
Qed.

Lemma needsEscape_low c :
  (c < 160)%N -> isMarkup c = false -> needsEscape icaseExtra c = false.
Proof.
  unfold needsEscape. intros H ->. apply N.leb_gt in H. rewrite H. reflexivity.
Qed.

Lemma escapeHtml_escaped s : escapedText (escapeHtml icaseExtra s).
Proof.
  induction s as [|c r IH]; [constructor|].
  unfold escapeHtml in *. cbn [flat_map]. unfold escapeUnit at 1.
  destruct (needsEscape icaseExtra c) eqn:E.
  - apply escaped_ref. exact IH.
  - apply escaped_plain; [apply needsEscape_markup; exact E|exact IH].
Qed.

Lemma escapeHtml_no_markup s x :
  In x (escapeHtml icaseExtra s) -> x = AMP \/ isMarkup x = false.
Proof.
  unfold escapeHtml. intros H. apply in_flat_map in H as (c & _ & H).
  unfold escapeUnit in H. destruct (needsEscape icaseExtra c) eqn:E.
  - apply charRef_units in H as [->|[->|[->|H]]]; auto.
    right. unfold isDigit in H. apply andb_true_iff in H as [H1 H2].
    apply N.leb_le in H1, H2. unfold isMarkup, LT, GT, AMP.
    repeat (apply orb_false_iff; split); apply N.eqb_neq; lia.
  - destruct H as [<-|[]]. right. apply needsEscape_markup. exact E.
Qed.

Lemma escapeHtml_no_angle s :
  ~ In LT (escapeHtml icaseExtra s) /\ ~ In GT (escapeHtml icaseExtra s).
Proof.
  split; intros H; apply escapeHtml_no_markup in H as [H|H]; discriminate.
Qed.

Lemma getProperty_own idx key :
  inherited key = false -> getProperty idx key = VString <$> idx !! key.
Proof.
  unfold inherited, getProperty. intros H. apply orb_false_iff in H as [-> ->].
  destruct (idx !! key); reflexivity.
Qed.

Lemma formatStringWithLinkable_escapes content idx :
  isLinked idx (removeUnits isBracket content) = false ->
  formatStringWithLinkable icaseExtra nativeText content idx =
    escapeHtml icaseExtra (removeUnits isBracket content).
Proof.
  unfold isLinked, formatStringWithLinkable.
  destruct (getProperty idx (removeUnits isBracket content)) as [v|];
    [intros ->|]; reflexivity.
Qed.

(** C3, as amended. For a string that, without its brackets, is not the
    name of a member inherited from Object.prototype, the formatter takes
    exactly one of two branches. It returns the hyperlink to the mapped
    identifier when the string is a key of the index whose identifier is
    not empty. Otherwise, the key being absent or its identifier empty,
    it returns the escaped literal: neither < nor > occurs in it, and &
    occurs only at the head of a numeric character reference. *)
Theorem C3_link_or_escape (content : jsstring)
    (linkableObjects : gmap jsstring jsstring) :
  let key := removeUnits isBracket content in
  let out := formatStringWithLinkable icaseExtra nativeText content linkableObjects in
  inherited key = false ->
  (exists uid, linkableObjects !! key = Some uid /\ uid <> [] /\
               out = anchor uid key) \/
  ((linkableObjects !! key = None \/ linkableObjects !! key = Some []) /\
   out = escapeHtml icaseExtra key /\
   escapedText out /\ ~ In LT out /\ ~ In GT out).
Proof.
  intros key out Hk. subst out. unfold formatStringWithLinkable. fold key.
  rewrite (getProperty_own _ _ Hk).
  destruct (linkableObjects !! key) as [[|c u]|] eqn:E; cbn.
  - right. split; [auto|]. split; [reflexivity|].
    split; [apply escapeHtml_escaped|apply escapeHtml_no_angle].
  - left. exists (c :: u). split; [reflexivity|]. split; [discriminate|reflexivity].
  - right. split; [auto|]. split; [reflexivity|].
    split; [apply escapeHtml_escaped|apply escapeHtml_no_angle].
Qed.

(** C9, as amended. On the escaping branch, that is when
    linkableObjects[key] is not true for the string without its brackets,
    every unit of that string contributes its own piece of the output, in
    order. The piece of <, > or & and of every unit from U+00A0 to U+9999
    is its numeric character reference; every other unit below U+00A0 is
    kept as it is. Nothing is promised for the units above U+9999. *)
Theorem C9_escaping_branch (content : jsstring)
    (linkableObjects : gmap jsstring jsstring) :
  let key := removeUnits isBracket content in
  isLinked linkableObjects key = false ->
  formatStringWithLinkable icaseExtra nativeText content linkableObjects =
    flat_map (escapeUnit icaseExtra) key /\
  (forall c, inEscapeClass c = true -> escapeUnit icaseExtra c = charRef c) /\
  (forall c, (c < 160)%N -> isMarkup c = false ->
             escapeUnit icaseExtra c = [c]).
Proof.
  intros key H. split; [|split].
  - apply formatStringWithLinkable_escapes. exact H.
  - intros c Hc. unfold escapeUnit. rewrite needsEscape_class; auto.
  - intros c H1 H2. unfold escapeUnit. rewrite needsEscape_low; auto.
Qed.
End LinkFacts.

Lemma C3_link_or_escape_witness :
  (exists uid,
     ({[ str "Options" := str "lib.js-options" ]} : gmap jsstring jsstring)
       !! str "Options" = Some uid /\ uid <> [] /\
     formatStringWithLinkable (fun _ => false) sampleText (str "[Options]")
       {[ str "Options" := str "lib.js-options" ]} = anchor uid (str "Options")) \/
  ((({[ str "Options" := str "lib.js-options" ]} : gmap jsstring jsstring)
      !! str "Options" = None \/
    ({[ str "Options" := str "lib.js-options" ]} : gmap jsstring jsstring)
      !! str "Options" = Some []) /\
   formatStringWithLinkable (fun _ => false) sampleText (str "[Options]")
     {[ str "Options" := str "lib.js-options" ]} =
     escapeHtml (fun _ => false) (str "Options") /\
   escapedText
     (formatStringWithLinkable (fun _ => false) sampleText (str "[Options]")
        {[ str "Options" := str "lib.js-options" ]}) /\
   ~ In LT
     (formatStringWithLinkable (fun _ => false) sampleText (str "[Options]")
        {[ str "Options" := str "lib.js-options" ]}) /\
   ~ In GT
     (formatStringWithLinkable (fun _ => false) sampleText (str "[Options]")
        {[ str "Options" := str "lib.js-options" ]})).
Proof.
  apply (C3_link_or_escape (fun _ => false) sampleText (str "[Options]")
           {[ str "Options" := str "lib.js-options" ]}).
  reflexivity.
Defined.

Lemma C9_escaping_branch_witness :
  formatStringWithLinkable (fun _ => false) sampleText (str "[a<b]" ++ [233%N]) ∅ =
    flat_map (escapeUnit (fun _ => false)) (str "a<b" ++ [233%N]) /\
  (forall c, inEscapeClass c = true ->
             escapeUnit (fun _ => false) c = charRef c) /\
  (forall c, (c < 160)%N -> isMarkup c = false ->
             escapeUnit (fun _ => false) c = [c]).
Proof.
  apply (C9_escaping_branch (fun _ => false) sampleText (str "[a<b]" ++ [233%N]) ∅).
  reflexivity.
Defined.

(** C3 as stated fails on a key whose identifier is the empty string. For
    the file name [-] the typedef [$] is registered under the identifier
    that [formatStringForUID] makes of [--$], which is empty: the key is
    present, and the string is escaped, not linked. *)
Lemma C3_counterexample :
  buildLinkable (str "-") [comment "" [declTag "typedef" "$"] None 1] =
    {[ str "$" := [] ]} /\
  ({[ str "$" := [] ]} : gmap jsstring jsstring) !! str "$" = Some [] /\
  forall icaseExtra nativeText,
    formatStringWithLinkable icaseExtra nativeText (str "$") {[ str "$" := [] ]} = str "$".
Proof. split; [reflexivity|]. split; [reflexivity|]. intros. reflexivity. Qed.

(** C9 as stated fails on the unit U+0085, which is not ASCII and lies
    below the range of the pattern: it is passed on as it is. *)
Lemma C9_counterexample :
  (127 < 133)%N /\
  forall icaseExtra nativeText,
    formatStringWithLinkable icaseExtra nativeText [133%N] ∅ = [133%N].
Proof. split; [reflexivity|]. intros. reflexivity. Qed.

(** A name inherited from Object.prototype is linked although the index
    holds no entry for it, and the link text is not escaped. *)
Example inherited_member_is_linked :
  forall icaseExtra nativeText,
    formatStringWithLinkable icaseExtra nativeText (str "constructor") ∅ =
      anchor (nativeText (str "constructor")) (str "constructor") /\
    formatStringWithLinkable icaseExtra nativeText (str "__proto__") ∅ =
      anchor (str "[object Object]") (str "__proto__").
Proof. intros. split; reflexivity. Qed.

(** ** Sorting *)

Section SortFacts.
Context {A : Type} (comparefn : A -> A -> Z).

Lemma sortInsert_perm x l : Permutation (sortInsert comparefn x l) (x :: l).
Proof.
  induction l as [|y r IH]; [reflexivity|].
  cbn [sortInsert]. destruct (comparefn x y <? 0)%Z; [reflexivity|].
  rewrite IH. apply perm_swap.
Qed.

Lemma sort_fold_perm l : forall acc,
  Permutation (fold_left (fun sorted x => sortInsert comparefn x sorted) l acc)
              (acc ++ l).
Proof.
  induction l as [|x r IH]; intros acc; cbn [fold_left].
  - rewrite app_nil_r. reflexivity.
  - rewrite IH, sortInsert_perm. apply Permutation_middle.
Qed.

Lemma Array_sort_perm l : Permutation (Array_sort comparefn l) l.
Proof. unfold Array_sort. apply (sort_fold_perm l []). Qed.

Lemma Array_sort_In l x : In x (Array_sort comparefn l) <-> In x l.
Proof.
  split; apply Permutation_in; [|symmetry]; apply Array_sort_perm.
Qed.

Lemma sortInsert_last x l :
  (forall y, In y l -> (0 <= comparefn x y)%Z) ->
  sortInsert comparefn x l = l ++ [x].
Proof.
  induction l as [|y r IH]; intros H; [reflexivity|].
  cbn [sortInsert].
  destruct (comparefn x y <? 0)%Z eqn:E.
  - apply Z.ltb_lt in E. specialize (H y (or_introl eq_refl)). lia.
  - cbn [app]. f_equal. apply IH. intros z Hz. apply H. right. exact Hz.
Qed.
End SortFacts.

Lemma compareEntities_bottom x y :
  e_toBottom x = true -> (0 <= compareEntities x y)%Z.
Proof.
  intros Hx. unfold compareEntities. rewrite Hx. cbn [andb].
  destruct (e_toBottom y); [destruct (optGt _ _)|]; lia.
Qed.

Lemma compareEntities_normal_bottom x y :
  e_toBottom x = false -> e_toBottom y = true -> compareEntities x y = (-1)%Z.
Proof. intros Hx Hy. unfold compareEntities. rewrite Hx, Hy. reflexivity. Qed.

Lemma compareEntities_normal x y :
  e_toBottom x = false -> e_toBottom y = false ->
  compareEntities x y = (e_line x - e_line y)%Z.
Proof. intros Hx Hy. unfold compareEntities. rewrite Hx, Hy. reflexivity. Qed.

Lemma sortInsert_normal x bottom :
  e_toBottom x = false ->
  Forall (fun e => e_toBottom e = true) bottom ->
  forall normal,
    Forall (fun e => e_toBottom e = false) normal ->
    StronglySorted byLine normal ->
    exists normal',
      sortInsert compareEntities x (normal ++ bottom) = normal' ++ bottom /\
      Forall (fun e => e_toBottom e = false) normal' /\
      StronglySorted byLine normal' /\
      (forall z, In z normal' -> z = x \/ In z normal).
Proof.
  intros Hx Hb. induction normal as [|y n IH]; intros Hn Hs.
  - exists [x]. split; [|split; [|split]].
    + cbn [app]. destruct bottom as [|y b]; [reflexivity|].
      cbn [sortInsert]. inversion Hb; subst.
      rewrite compareEntities_normal_bottom by assumption. reflexivity.
    + constructor; [exact Hx|constructor].
    + constructor; constructor.
    + intros z [<-|[]]. left. reflexivity.
  - inversion Hn as [|? ? Hy Hn']; subst.
    inversion Hs as [|? ? Hs' Hle]; subst.
    cbn [app sortInsert]. rewrite compareEntities_normal by assumption.
    destruct (e_line x - e_line y <? 0)%Z eqn:E.
    + apply Z.ltb_lt in E. exists (x :: y :: n).
      split; [reflexivity|]. split; [constructor; assumption|].
      split; [|intros z [<-|H]; auto].
      constructor; [exact Hs|].
      constructor; [unfold byLine; lia|].
      eapply Forall_impl; [exact Hle|]. unfold byLine. intros; lia.
    + apply Z.ltb_ge in E.
      destruct (IH Hn' Hs') as (n' & E1 & E2 & E3 & E4).
      exists (y :: n'). rewrite E1. split; [reflexivity|].
      split; [constructor; assumption|].
      split.
      * constructor; [exact E3|]. apply Forall_forall. intros z Hz.
        apply list_elem_of_In in Hz.
        destruct (E4 z Hz) as [->|Hz']; [unfold byLine; lia|].
        rewrite Forall_forall in Hle. apply Hle. apply list_elem_of_In. exact Hz'.
      * intros z [<-|Hz]; [right; left; reflexivity|].
        destruct (E4 z Hz); [left|right; right]; assumption.
Qed.

Lemma sortInsert_arranged x l :
  arranged l -> arranged (sortInsert compareEntities x l).
Proof.
  intros (normal & bottom & -> & Hn & Hb & Hs).
  destruct (e_toBottom x) eqn:Hx.
  - rewrite sortInsert_last by (intros; apply compareEntities_bottom; exact Hx).
    exists normal, (bottom ++ [x]). rewrite app_assoc.
    split; [reflexivity|]. split; [exact Hn|]. split; [|exact Hs].
    apply Forall_app. split; [exact Hb|]. constructor; [exact Hx|constructor].
  - destruct (sortInsert_normal x bottom Hx Hb normal Hn Hs)
      as (n' & E1 & E2 & E3 & _).
    exists n', bottom. auto.
Qed.

Lemma Array_sort_arranged l : arranged (Array_sort compareEntities l).
Proof.
  unfold Array_sort.
  assert (H : arranged []).
  { exists [], []. repeat split; constructor. }
  revert H. generalize (@nil Entity) as acc.
  induction l as [|x r IH]; intros acc H; cbn [fold_left]; [exact H|].
  apply IH. apply sortInsert_arranged. exact H.
Qed.

Lemma StronglySorted_lookup {A} (R : A -> A -> Prop) (l : list A) :
  StronglySorted R l ->
  forall i j a b, (i < j)%nat -> l !! i = Some a -> l !! j = Some b -> R a b.
Proof.
  induction 1 as [|x l Hs IH Hx]; intros i j a b Hij Hi Hj.
  - rewrite lookup_nil in Hi. discriminate.
  - destruct j as [|j]; [lia|]. cbn in Hj.
    destruct i as [|i].
    + cbn in Hi. injection Hi as <-.
      rewrite Forall_forall in Hx. apply Hx.
      eapply list_elem_of_lookup_2. exact Hj.
    + cbn in Hi. apply (IH i j); [lia|assumption..].
Qed.

Lemma arranged_positions l :
  arranged l ->
  (forall i j a b, l !! i = Some a -> l !! j = Some b ->
     e_toBottom a = true -> e_toBottom b = false -> (j < i)%nat) /\
  (forall i j a b, (i < j)%nat -> l !! i = Some a -> l !! j = Some b ->
     e_toBottom a = false -> e_toBottom b = false ->
     (e_line a <= e_line b)%Z).
Proof.
  intros (normal & bottom & -> & Hn & Hb & Hs).
  assert (Hlow : forall k x, (normal ++ bottom) !! k = Some x ->
            e_toBottom x = false -> normal !! k = Some x).
  { intros k x Hk Hx. apply lookup_app_Some in Hk as [Hk|[_ Hk]]; [exact Hk|].
    rewrite Forall_forall in Hb.
    rewrite (Hb x) in Hx; [discriminate|]. eapply list_elem_of_lookup_2. exact Hk. }
  assert (Hhigh : forall k x, (normal ++ bottom) !! k = Some x ->
            e_toBottom x = true -> (length normal <= k)%nat).
  { intros k x Hk Hx. apply lookup_app_Some in Hk as [Hk|[Hk _]]; [|exact Hk].
    rewrite Forall_forall in Hn.
    rewrite (Hn x) in Hx; [discriminate|]. eapply list_elem_of_lookup_2. exact Hk. }
  split.
  - intros i j a b Hi Hj Ha Hb'.
    apply Hhigh in Hi; [|exact Ha].
    apply Hlow in Hj; [|exact Hb']. apply lookup_lt_Some in Hj. lia.
  - intros i j a b Hij Hi Hj Ha Hb'.
    eapply (StronglySorted_lookup byLine normal Hs i j); eauto.
Qed.


(** ** The index of linkable objects and the entities *)

Lemma registerLinkable_lookup filename idx method n :
  registerLinkable filename idx method !! n =
    match m_tags method with
    | t :: _ => if declares method n then Some (tagUID filename t) else idx !! n
    | [] => idx !! n
    end.
Proof.
  unfold registerLinkable, declares.
  destruct (m_tags method) as [|t rest] eqn:Et.
  - destruct (isCallbackOrTypedef method); reflexivity.
  - destruct (isCallbackOrTypedef method); cbn [andb]; [|reflexivity].
    unfold setProperty.
    destruct (bool_decide (linkName t = n)) eqn:E1; cbn [andb].
    + apply bool_decide_eq_true in E1. rewrite E1.
      destruct (bool_decide (n = PROTO)); cbn [negb]; [reflexivity|].
      apply lookup_insert_eq.
    + apply bool_decide_eq_false in E1.
      destruct (bool_decide (linkName t = PROTO)); [reflexivity|].
      apply lookup_insert_ne. exact E1.
Qed.

Lemma registerLinkable_other filename idx method n :
  declares method n = false ->
  registerLinkable filename idx method !! n = idx !! n.
Proof.
  intros H. rewrite registerLinkable_lookup, H.
  destruct (m_tags method); reflexivity.
Qed.

Lemma registerLinkable_declared filename idx method n t rest :
  m_tags method = t :: rest -> declares method n = true ->
  registerLinkable filename idx method !! n = Some (tagUID filename t).
Proof.
  intros Et H. rewrite registerLinkable_lookup, Et, H. reflexivity.
Qed.

Lemma fold_register_other filename n methods : forall idx,
  (forall m, In m methods -> declares m n = false) ->
  fold_left (registerLinkable filename) methods idx !! n = idx !! n.
Proof.
  induction methods as [|m r IH]; intros idx H; [reflexivity|].
  cbn [fold_left]. rewrite IH by (intros; apply H; right; assumption).
  apply registerLinkable_other. apply H. left. reflexivity.
Qed.

Lemma buildLinkable_absent filename n methods :
  (forall m, In m methods -> declares m n = false) ->
  buildLinkable filename methods !! n = None.
Proof.
  intros H. unfold buildLinkable. rewrite fold_register_other by exact H.
  apply lookup_empty.
Qed.

Lemma buildLinkable_last filename n pre d t rest post :
  m_tags d = t :: rest -> declares d n = true ->
  (forall m, In m post -> declares m n = false) ->
  buildLinkable filename (pre ++ d :: post) !! n = Some (tagUID filename t).
Proof.
  intros Et Hd Hpost. unfold buildLinkable.
  rewrite fold_left_app. cbn [fold_left].
  rewrite fold_register_other by exact Hpost.
  eapply registerLinkable_declared; eauto.
Qed.

Lemma fold_register_some filename n methods : forall idx,
  is_Some (idx !! n) ->
  is_Some (fold_left (registerLinkable filename) methods idx !! n).
Proof.
  induction methods as [|m r IH]; intros idx H; [exact H|].
  cbn [fold_left]. apply IH. rewrite registerLinkable_lookup.
  destruct (m_tags m); [exact H|]. destruct (declares m n); [eauto|exact H].
Qed.

Lemma buildLinkable_registered filename n methods d :
  In d methods -> declares d n = true ->
  is_Some (buildLinkable filename methods !! n).
Proof.
  intros Hin Hd. apply in_split in Hin as (pre & post & ->).
  unfold buildLinkable. rewrite fold_left_app. cbn [fold_left].
  apply fold_register_some.
  unfold declares in Hd. destruct (m_tags d) as [|t rest] eqn:Et; [discriminate|].
  erewrite registerLinkable_declared; eauto.
  unfold declares. rewrite Et. exact Hd.
Qed.

Lemma declares_proto m : declares m PROTO = false.
Proof.
  unfold declares. destruct (m_tags m); [reflexivity|].
  rewrite (bool_decide_eq_true_2 (PROTO = PROTO)) by reflexivity.
  apply andb_false_r.
Qed.

Lemma buildLinkable_no_proto filename methods :
  buildLinkable filename methods !! PROTO = None.
Proof. apply buildLinkable_absent. intros. apply declares_proto. Qed.

Lemma notIgnored_In comments m :
  In m (notIgnored comments) <-> In m comments /\ m_ignore m = false.
Proof.
  unfold notIgnored. rewrite filter_In, negb_true_iff. reflexivity.
Qed.

Lemma fold_register_origin filename k u methods : forall idx,
  fold_left (registerLinkable filename) methods idx !! k = Some u ->
  idx !! k = Some u \/
  exists m t rest, In m methods /\ m_tags m = t :: rest /\
    declares m k = true /\ u = tagUID filename t.
Proof.
  induction methods as [|m r IH]; intros idx H; [left; exact H|].
  cbn [fold_left] in H. apply IH in H as [H|(m' & t & rest & H1 & H2)].
  - rewrite registerLinkable_lookup in H.
    destruct (m_tags m) as [|t rest] eqn:Et; [left; exact H|].
    destruct (declares m k) eqn:Ed; [|left; exact H].
    right. exists m, t, rest. injection H as <-.
    repeat split; auto. left. reflexivity.
  - right. exists m', t, rest. split; [right; exact H1|exact H2].
Qed.

Lemma buildLinkable_origin filename comments k u :
  buildLinkable filename (notIgnored comments) !! k = Some u ->
  exists m t rest, In m comments /\ m_ignore m = false /\
    m_tags m = t :: rest /\ declares m k = true /\ u = tagUID filename t.
Proof.
  intros H. apply fold_register_origin in H as [H|(m & t & rest & H1 & H2 & H3 & H4)].
  - rewrite lookup_empty in H. discriminate.
  - apply notIgnored_In in H1 as [H1 H1']. exists m, t, rest. auto.
Qed.

Section ParserFacts.
Variable icaseExtra : N -> bool.
Variable nativeText : jsstring -> jsstring.

Lemma parser_In comments filename e :
  In e (parser icaseExtra nativeText comments filename) <->
  exists m, In m comments /\ m_ignore m = false /\ e_empty e = false /\
    e = fst (buildEntity icaseExtra nativeText filename
               (buildLinkable filename (notIgnored comments)) m).
Proof.
  unfold parser. fold (notIgnored comments).
  rewrite Array_sort_In, filter_In, in_map_iff, negb_true_iff.
  split.
  - intros [(m & <- & Hm) He]. apply notIgnored_In in Hm as [H1 H2]. eauto.
  - intros (m & H1 & H2 & H3 & ->). split; [|exact H3].
    exists m. split; [reflexivity|]. apply notIgnored_In. auto.
Qed.

Lemma buildEntity_tags filename idx m :
  e_tags (fst (buildEntity icaseExtra nativeText filename idx m)) =
  tagGroups icaseExtra nativeText idx (m_tags m).
Proof.
  unfold buildEntity.
  destruct (m_ctx m) as [c|].
  - destruct (decide _); reflexivity.
  - destruct (isCallbackOrTypedef m); [|reflexivity].
    destruct (m_tags m) as [|t r] eqn:Et; [cbn; rewrite Et; reflexivity|].
    destruct (hasType "typedef" t); cbn; rewrite Et; reflexivity.
Qed.

Lemma buildEntity_empty filename idx m :
  e_empty (fst (buildEntity icaseExtra nativeText filename idx m)) =
  isNil (m_description m) && isNil (m_tags m).
Proof.
  unfold buildEntity.
  destruct (m_ctx m) as [c|].
  - destruct (decide _); reflexivity.
  - destruct (isCallbackOrTypedef m); [|reflexivity].
    destruct (m_tags m) as [|t r] eqn:Et; [cbn; rewrite Et; reflexivity|].
    destruct (hasType "typedef" t); cbn; rewrite Et; reflexivity.
Qed.
End ParserFacts.

(** ** The parser *)

Section ParserClaims.
Variable icaseExtra : N -> bool.
Variable nativeText : jsstring -> jsstring.

Lemma buildEntity_uid filename idx m u :
  e_uid (fst (buildEntity icaseExtra nativeText filename idx m)) = Some u ->
  exists declared, declaredName m = Some declared /\
    u = formatStringForUID (filename ++ str "-" ++ declared).
Proof.
  unfold buildEntity, declaredName.
  destruct (m_ctx m) as [c|].
  - destruct (decide _); cbn; intros [= <-]; eauto.
  - destruct (isCallbackOrTypedef m); [|cbn; discriminate].
    destruct (m_tags m) as [|t r] eqn:Et; [cbn; discriminate|].
    destruct (hasType "typedef" t); cbn; intros [= <-]; eauto.
Qed.

(** C2, as amended. Every entity of the output that carries an identifier
    is the entity built from a comment of the batch that is not ignored
    and declares a name, and its identifier is the slug of the file name,
    a hyphen and the name that this comment declares: lower-cased, every
    maximal run of units other than letters, digits, underscore and period
    turned into one hyphen, the hyphens at both ends removed; it is made
    of kept units separated by single hyphens. The record of the example
    comes out, for lib.js, with the identifier lib.js-foo, the type
    method, the name foo and the parameters a. *)
Theorem C2_uid_is_slug (comments : list ParsedComment)
    (filename : jsstring) (e : Entity) (uid : jsstring) :
  In e (parser icaseExtra nativeText comments filename) ->
  e_uid e = Some uid ->
  (exists m declared,
     In m comments /\ m_ignore m = false /\
     e = fst (buildEntity icaseExtra nativeText filename
                (buildLinkable filename (notIgnored comments)) m) /\
     declaredName m = Some declared /\
     uid = slugSpec (filename ++ str "-" ++ declared)) /\
  isSlug uid = true /\
  map (fun x => (e_uid x, e_type x, e_name x, e_params x))
      (parser icaseExtra nativeText [exampleFoo] (str "lib.js")) =
    [(Some (str "lib.js-foo"), Some (str "method"), Some (str "foo"), str "a")].
Proof.
  intros Hin Hu.
  apply parser_In in Hin as (m & Hm & Hig & _ & ->).
  apply buildEntity_uid in Hu as (d & Hd & ->).
  split; [|split; [apply formatStringForUID_isSlug|reflexivity]].
  exists m, d. rewrite formatStringForUID_spec. auto.
Qed.

(** C4. In the output every entity with toBottom stands after every
    entity without it, and the entities without toBottom stand in
    ascending order of their lines: the output is the latter, sorted by
    line, followed by the former. Three methods on the lines 10, 3 and 7
    come out on the lines 3, 7 and 10. *)
Theorem C4_bottom_last_lines_ascending (comments : list ParsedComment)
    (filename : jsstring) :
  let out := parser icaseExtra nativeText comments filename in
  (forall i j a b, out !! i = Some a -> out !! j = Some b ->
     e_toBottom a = true -> e_toBottom b = false -> (j < i)%nat) /\
  (forall i j a b, (i < j)%nat -> out !! i = Some a -> out !! j = Some b ->
     e_toBottom a = false -> e_toBottom b = false ->
     (e_line a <= e_line b)%Z) /\
  (exists normal bottom,
     out = normal ++ bottom /\
     Forall (fun e => e_toBottom e = false) normal /\
     Forall (fun e => e_toBottom e = true) bottom /\
     StronglySorted byLine normal) /\
  map e_line
    (parser icaseExtra nativeText
       [comment "a" [] (methodCtx "a") 10; comment "b" [] (methodCtx "b") 3;
        comment "c" [] (methodCtx "c") 7] filename) = [3; 7; 10]%Z.
Proof.
  intros out.
  assert (H : arranged out) by apply Array_sort_arranged.
  destruct (arranged_positions out H) as [H1 H2].
  split; [exact H1|]. split; [exact H2|]. split; [exact H|reflexivity].
Qed.

Lemma parser_resolved comments filename e :
  In e (parser icaseExtra nativeText comments filename) ->
  exists m, In m (notIgnored comments) /\
    e_tags e =
      tagGroups icaseExtra nativeText (buildLinkable filename (notIgnored comments))
        (m_tags m).
Proof.
  intros H. apply parser_In in H as (m & H1 & H2 & _ & ->).
  exists m. split; [apply notIgnored_In; auto|apply buildEntity_tags].
Qed.

Lemma buildLinkable_skip filename l1 l2 u :
  isCallbackOrTypedef u = false ->
  buildLinkable filename (l1 ++ u :: l2) = buildLinkable filename (l1 ++ l2).
Proof.
  intros H. unfold buildLinkable. rewrite !fold_left_app. cbn [fold_left].
  unfold registerLinkable at 2. rewrite H. reflexivity.
Qed.

Lemma declares_first d t rest :
  m_tags d = t :: rest -> isCallbackOrTypedef d = true ->
  linkName t <> PROTO ->
  declares d (linkName t) = true.
Proof.
  intros Et H Hp. unfold declares. rewrite Et, H. cbn [andb].
  rewrite bool_decide_eq_true_2 by reflexivity.
  rewrite bool_decide_eq_false_2 by exact Hp. reflexivity.
Qed.

Lemma formatStringWithLinkable_own type idx uid :
  idx !! removeUnits isBracket type = Some uid -> uid <> [] ->
  formatStringWithLinkable icaseExtra nativeText type idx =
    anchor uid (removeUnits isBracket type).
Proof.
  intros H Hne. unfold formatStringWithLinkable, getProperty. rewrite H.
  destruct uid; [contradiction|reflexivity].
Qed.

Lemma buildEntity_kept filename comments m :
  In m (notIgnored comments) -> m_tags m <> [] ->
  In (fst (buildEntity icaseExtra nativeText filename
             (buildLinkable filename (notIgnored comments)) m))
     (parser icaseExtra nativeText comments filename).
Proof.
  intros Hm Ht. apply notIgnored_In in Hm as [H1 H2].
  apply parser_In. exists m. repeat split; auto.
  rewrite buildEntity_empty. destruct (m_tags m); [contradiction|].
  apply andb_false_r.
Qed.

(** C5. The entities of the output are exactly the entities built, with
    the one index made from all the comments that are not ignored, from
    those comments whose entity is not empty. So a type of a param,
    property or return tag that refers to the name of a callback or
    typedef, the last to declare that name, stands in the output as the
    hyperlink to its identifier, whether the referring comment comes
    before the declaration or after it. And a comment that declares
    nothing leaves the index as it is wherever it stands. (A name stored
    in the index is never [__proto__].) *)
Theorem C5_index_before_links (comments : list ParsedComment)
    (filename : jsstring) :
  let methods := notIgnored comments in
  let linkableObjects := buildLinkable filename methods in
  (forall e, In e (parser icaseExtra nativeText comments filename) <->
     exists m, In m methods /\ e_empty e = false /\
       e = fst (buildEntity icaseExtra nativeText filename linkableObjects m)) /\
  (forall user tag type pre d t rest post,
     In user methods -> In tag (m_tags user) -> In type (t_types tag) ->
     methods = pre ++ d :: post ->
     m_tags d = t :: rest -> isCallbackOrTypedef d = true ->
     (forall m, In m post -> declares m (linkName t) = false) ->
     linkName t <> PROTO ->
     removeUnits isBracket type = linkName t ->
     tagUID filename t <> [] ->
     let link := anchor (tagUID filename t) (linkName t) in
     let e := fst (buildEntity icaseExtra nativeText filename
                     linkableObjects user) in
     In e (parser icaseExtra nativeText comments filename) /\
     (hasType "param" tag = true ->
      exists doc, In doc (g_param (e_tags e)) /\ In link (p_types doc)) /\
     (hasType "property" tag = true ->
      exists doc, In doc (g_property (e_tags e)) /\ In link (p_types doc)) /\
     (hasType "return" tag || hasType "returns" tag = true ->
      exists doc, In doc (g_return (e_tags e)) /\ In link (r_types doc))) /\
  (forall before after user,
     isCallbackOrTypedef user = false ->
     buildLinkable filename (before ++ user :: after) =
       buildLinkable filename (before ++ after) /\
     buildLinkable filename (user :: before ++ after) =
       buildLinkable filename (before ++ after ++ [user])).
Proof.
  intros methods idx. split; [|split].
  - intros e. rewrite parser_In. split.
    + intros (m & H1 & H2 & H3 & H4). exists m.
      split; [apply notIgnored_In; auto|auto].
    + intros (m & H1 & H2 & H3). apply notIgnored_In in H1 as [H0 H1].
      exists m. auto.
  - intros user tag type pre d t rest post Hu Htag Hty E Et Hd Hpost Hp Hk Hne
      link e.
    assert (L : formatStringWithLinkable icaseExtra nativeText type idx = link).
    { subst link. rewrite <- Hk. apply formatStringWithLinkable_own; [|exact Hne].
      rewrite Hk. subst idx. rewrite E.
      apply (buildLinkable_last filename (linkName t) pre d t rest post Et
               (declares_first _ _ _ Et Hd Hp) Hpost). }
    assert (Hin : In link
                    (map (fun ty => formatStringWithLinkable icaseExtra
                                      nativeText ty idx) (t_types tag))).
    { apply in_map_iff. exists type. split; [exact L|exact Hty]. }
    split.
    + apply buildEntity_kept; [exact Hu|]. intros H0. rewrite H0 in Htag.
      destruct Htag.
    + subst e. rewrite buildEntity_tags.
      cbn [tagGroups g_param g_property g_return].
      split; [|split]; intros Hh.
      * exists (paramDoc icaseExtra nativeText idx tag).
        split; [|exact Hin]. apply in_map, filter_In. auto.
      * exists (paramDoc icaseExtra nativeText idx tag).
        split; [|exact Hin]. apply in_map, filter_In. auto.
      * exists (returnDoc icaseExtra nativeText idx tag).
        split; [|exact Hin]. apply in_map, filter_In. auto.
  - intros l1 l2 u Hu. split; [apply buildLinkable_skip; exact Hu|].
    change (u :: l1 ++ l2) with ([] ++ u :: (l1 ++ l2)).
    rewrite (buildLinkable_skip filename [] (l1 ++ l2) u Hu).
    rewrite (app_assoc l1 l2 [u]).
    rewrite (buildLinkable_skip filename (l1 ++ l2) [] u Hu).
    rewrite app_nil_r. reflexivity.
Qed.

(** C6 at a typedef without context whose name is [__proto__]. The entity
    is in the output with notFunction, toBottom, the type typedef and
    empty parameters, but its name is not registered: the assignment to
    [linkableObjects["__proto__"]] stores nothing, the index stays empty,
    and a reference to the name is linked to the text of
    [Object.prototype], not to the identifier of the entity. *)
Theorem C6_typedef_named_proto_is_not_registered (filename : jsstring) :
  let comments := [exampleProtoUser; exampleProto] in
  let linkableObjects := buildLinkable filename (notIgnored comments) in
  let e := fst (buildEntity icaseExtra nativeText filename linkableObjects
                  exampleProto) in
  m_ignore exampleProto = false /\ m_ctx exampleProto = None /\
  isCallbackOrTypedef exampleProto = true /\
  In e (parser icaseExtra nativeText comments filename) /\
  e_notFunction e = true /\ e_toBottom e = true /\
  e_type e = Some (str "typedef") /\ e_params e = [] /\
  e_name e = Some (str "__proto__") /\
  e_uid e = Some (formatStringForUID (filename ++ str "-" ++ str "__proto__")) /\
  linkableObjects = ∅ /\
  linkableObjects !! str "__proto__" = None /\
  map (fun x => map p_types (g_param (e_tags x)))
      (parser icaseExtra nativeText comments filename) =
    [[[anchor (str "[object Object]") (str "__proto__")]]; [[]]].
Proof.
  cbv zeta. split; [reflexivity|]. split; [reflexivity|].
  split; [reflexivity|]. split; [right; left; reflexivity|].
  repeat split; reflexivity.
Qed.

(** C10 at a typedef named [toString] that is ignored. The ignored
    comment contributes no entry: the index is empty. Yet the type
    [toString] of another comment is not escaped: it is linked, to the
    text of the function that every object inherits under that name. *)
Theorem C10_reference_to_ignored_toString_is_linked (filename : jsstring) :
  let comments := [exampleToStringUser; ignored exampleToString] in
  let linkableObjects := buildLinkable filename (notIgnored comments) in
  (forall m, In m comments -> declares m (str "toString") = true ->
             m_ignore m = true) /\
  linkableObjects = ∅ /\
  linkableObjects !! str "toString" = None /\
  formatStringWithLinkable icaseExtra nativeText (str "toString")
    linkableObjects =
    anchor (nativeText (str "toString")) (str "toString") /\
  map (fun x => map p_types (g_param (e_tags x)))
      (parser icaseExtra nativeText comments filename) =
    [[[anchor (nativeText (str "toString")) (str "toString")]]].
Proof.
  cbv zeta. split.
  - intros m [<-|[<-|[]]] H; [discriminate H|reflexivity].
  - repeat split; reflexivity.
Qed.

(** C1 at the comment that has a description, no tags and no context: the
    flag is written on the comment, the entity keeps [empty = false], and
    the entity is in the output. *)
Theorem C1_unclassified_comment_is_kept (filename : jsstring) :
  m_ctx exampleOrphan = None /\
  isCallbackOrTypedef exampleOrphan = false /\
  m_empty (snd (buildEntity icaseExtra nativeText filename ∅ exampleOrphan)) = true /\
  e_empty (fst (buildEntity icaseExtra nativeText filename ∅ exampleOrphan)) = false /\
  parser icaseExtra nativeText [exampleOrphan] filename =
    [fst (buildEntity icaseExtra nativeText filename ∅ exampleOrphan)] /\
  map (fun e => (e_description e, e_uid e, e_type e, e_name e))
      (parser icaseExtra nativeText [exampleOrphan] filename) =
    [(str "text", None, None, None)].
Proof. repeat split; reflexivity. Qed.
End ParserClaims.

(** ** The parameters *)

Lemma replaceLit_skip alts rep s : forall k,
  replaceLit alts rep k s = replaceLit alts rep 0 (drop k s).
Proof.
  induction s as [|c r IH]; intros [|k]; try reflexivity.
  cbn [replaceLit drop]. apply IH.
Qed.

Lemma replaceAll_plain c s :
  c <> RBRACKET ->
  replaceAll closeOpen (str ", ") (c :: s) =
    c :: replaceAll closeOpen (str ", ") s.
Proof.
  intros H. unfold replaceAll. cbn [replaceLit firstPrefix].
  assert (E : startsWith closeOpen (c :: s) = false).
  { cbn [closeOpen str startsWith]. apply andb_false_iff. left.
    apply N.eqb_neq. intros E. apply H. rewrite <- E. reflexivity. }
  rewrite E. reflexivity.
Qed.

Lemma replaceAll_plain_app name s :
  Forall (fun c => c <> RBRACKET) name ->
  replaceAll closeOpen (str ", ") (name ++ s) =
    name ++ replaceAll closeOpen (str ", ") s.
Proof.
  induction 1 as [|c r Hc _ IH]; [reflexivity|].
  cbn [app]. rewrite replaceAll_plain, IH; [reflexivity|exact Hc].
Qed.

Lemma replaceAll_match s :
  replaceAll closeOpen (str ", ") (closeOpen ++ s) =
    str ", " ++ replaceAll closeOpen (str ", ") s.
Proof.
  unfold replaceAll. cbn [closeOpen str app replaceLit firstPrefix startsWith].
  rewrite !N.eqb_refl. cbn [andb].
  rewrite replaceLit_skip. reflexivity.
Qed.

Lemma replaceAll_close s :
  startsWith (str ", [") s = false ->
  replaceAll closeOpen (str ", ") (RBRACKET :: s) =
    RBRACKET :: replaceAll closeOpen (str ", ") s.
Proof.
  intros H. unfold replaceAll. cbn [replaceLit firstPrefix].
  assert (E : startsWith closeOpen (RBRACKET :: s) = false).
  { change closeOpen with (RBRACKET :: str ", [").
    cbn [startsWith]. rewrite H. apply andb_false_r. }
  rewrite E. reflexivity.
Qed.

Lemma join_cons item items :
  join (str ", ") (map wrapItem (item :: items)) = wrapItem item ++ joinTail items.
Proof.
  revert item. induction items as [|i r IH]; intros item.
  - cbn. rewrite app_nil_r. reflexivity.
  - change (map wrapItem (item :: i :: r))
      with (wrapItem item :: map wrapItem (i :: r)).
    cbn [join]. change (wrapItem i :: map wrapItem r) with (map wrapItem (i :: r)).
    destruct (map wrapItem (i :: r)) eqn:E; [discriminate|]. rewrite <- E.
    rewrite IH. cbn [joinTail flat_map]. rewrite <- !app_assoc. reflexivity.
Qed.

Lemma joinTail_no_open n items :
  Forall (fun c => isBracket c = false) n ->
  startsWith (str ", [") (str ", " ++ n ++ joinTail items) = false.
Proof.
  intros Hn. cbn [str app startsWith]. rewrite !N.eqb_refl. cbn [andb].
  destruct n as [|c n'].
  - destruct items as [|i r]; [reflexivity|]. reflexivity.
  - inversion Hn; subst. cbn [app startsWith].
    apply andb_false_iff. left. apply N.eqb_neq. intros <-. discriminate.
Qed.

Lemma plain_not_close n :
  Forall (fun c => isBracket c = false) n -> Forall (fun c => c <> RBRACKET) n.
Proof.
  intros H. eapply Forall_impl; [exact H|]. intros c Hc ->. discriminate.
Qed.

Lemma replaceAll_joinTail items :
  plainNames items ->
  replaceAll closeOpen (str ", ") (joinTail items) = groupedTail false items /\
  replaceAll closeOpen (str ", ") (RBRACKET :: joinTail items) =
    groupedTail true items.
Proof.
  induction 1 as [|[n opt] r Hn _ [IH1 IH2]]; [split; reflexivity|].
  cbn [fst] in Hn. cbn [joinTail flat_map]. fold (joinTail r).
  unfold wrapItem. cbn [fst snd groupedTail].
  pose proof (plain_not_close n Hn) as Hn'.
  destruct opt; cbn [andb negb]; split.
  - rewrite <- !app_assoc.
    rewrite (replaceAll_plain_app (str ", ")) by (repeat constructor; discriminate).
    rewrite (replaceAll_plain_app [LBRACKET]) by (repeat constructor; discriminate).
    rewrite (replaceAll_plain_app n) by exact Hn'.
    cbn [app]. rewrite IH2. reflexivity.
  - rewrite <- !app_assoc.
    change (RBRACKET :: str ", " ++ [LBRACKET] ++ n ++ [RBRACKET] ++ joinTail r)
      with (closeOpen ++ n ++ RBRACKET :: joinTail r).
    rewrite replaceAll_match, (replaceAll_plain_app n) by exact Hn'.
    rewrite IH2. reflexivity.
  - rewrite <- !app_assoc.
    rewrite (replaceAll_plain_app (str ", ")) by (repeat constructor; discriminate).
    rewrite (replaceAll_plain_app n) by exact Hn'.
    rewrite IH1. reflexivity.
  - rewrite <- !app_assoc.
    rewrite replaceAll_close by (apply joinTail_no_open; exact Hn).
    rewrite (replaceAll_plain_app (str ", ")) by (repeat constructor; discriminate).
    rewrite (replaceAll_plain_app n) by exact Hn'.
    rewrite IH1. reflexivity.
Qed.

Lemma replaceAll_join items :
  plainNames items ->
  replaceAll closeOpen (str ", ") (join (str ", ") (map wrapItem items)) =
    grouped items.
Proof.
  destruct items as [|[n opt] r]; [reflexivity|].
  intros H. inversion H as [|? ? Hn Hr]; subst. cbn [fst] in Hn.
  rewrite join_cons. unfold wrapItem. cbn [fst snd grouped].
  pose proof (plain_not_close n Hn) as Hn'.
  destruct (replaceAll_joinTail r Hr) as [E1 E2].
  destruct opt.
  - rewrite <- !app_assoc.
    rewrite (replaceAll_plain_app [LBRACKET]) by (repeat constructor; discriminate).
    rewrite (replaceAll_plain_app n) by exact Hn'.
    cbn [app]. rewrite E2. reflexivity.
  - rewrite (replaceAll_plain_app n) by exact Hn'. rewrite E1. reflexivity.
Qed.

Lemma removeUnits_plain cls s :
  Forall (fun c => cls c = false) (removeUnits cls s).
Proof.
  unfold removeUnits. apply Forall_forall. intros c Hc.
  apply list_elem_of_In, filter_In in Hc as [_ Hc].
  apply negb_true_iff. exact Hc.
Qed.

Lemma paramText_item tag : paramText tag = wrapItem (paramItem tag).
Proof. unfold paramText, wrapItem, paramItem. cbn [fst snd]. reflexivity. Qed.

Lemma paramsString_grouped tags :
  paramsString tags =
    replaceFirst (str ", [") (str "[, ")
      (grouped (map paramItem (shownParams tags))).
Proof.
  unfold paramsString. fold (shownParams tags). f_equal.
  rewrite <- replaceAll_join.
  - rewrite map_map. reflexivity.
  - apply Forall_forall. intros item Hi.
    apply list_elem_of_In, in_map_iff in Hi as (tag & <- & _).
    apply removeUnits_plain.
Qed.

Section ParamsClaim.
Variable icaseExtra : N -> bool.
Variable nativeText : jsstring -> jsstring.

Lemma buildEntity_params filename idx m :
  e_params (fst (buildEntity icaseExtra nativeText filename idx m)) =
    if isBareTypedef m then [] else paramsString (m_tags m).
Proof.
  unfold buildEntity, isBareTypedef, isCallbackOrTypedef.
  destruct (m_ctx m) as [c|].
  - destruct (decide _); reflexivity.
  - destruct (m_tags m) as [|t r] eqn:Et; [cbn; rewrite Et; reflexivity|].
    destruct (hasType "typedef" t) eqn:Ht; cbn [orb].
    + reflexivity.
    + destruct (hasType "callback" t); cbn; rewrite Et; reflexivity.
Qed.

(** C7, as amended. The param group of the entity lists every param tag,
    the dotted ones included. The string of parameters is made of the
    param tags whose name has no period: their names without brackets,
    joined with a comma and a space, one pair of brackets around every
    maximal group of neighbouring optional names (every boundary between
    two optional names is collapsed), and then the first comma that is
    followed by an opening bracket is moved behind that bracket. The
    entity keeps this string unless it is a typedef without context. *)
Theorem C7_params_string (filename : jsstring)
    (linkableObjects : gmap jsstring jsstring) (method : ParsedComment) :
  let e := fst (buildEntity icaseExtra nativeText filename linkableObjects method) in
  let items := map paramItem (shownParams (m_tags method)) in
  g_param (e_tags e) =
    map (paramDoc icaseExtra nativeText linkableObjects)
        (List.filter (hasType "param") (m_tags method)) /\
  replaceAll (str "], [") (str ", ") (join (str ", ") (map wrapItem items)) =
    grouped items /\
  paramsString (m_tags method) =
    replaceFirst (str ", [") (str "[, ") (grouped items) /\
  e_params e =
    if isBareTypedef method then [] else paramsString (m_tags method).
Proof.
  intros e items. split; [|split; [|split]].
  - subst e. rewrite buildEntity_tags. reflexivity.
  - apply replaceAll_join. apply Forall_forall. intros item Hi.
    apply list_elem_of_In, in_map_iff in Hi as (tag & <- & _).
    apply removeUnits_plain.
  - apply paramsString_grouped.
  - apply buildEntity_params.
Qed.
End ParamsClaim.

(** ** Instances *)

Lemma C2_uid_is_slug_witness :
  (exists m declared,
     In m [exampleFoo] /\ m_ignore m = false /\
     fst (buildEntity (fun _ => false) sampleText (str "lib.js") ∅ exampleFoo) =
       fst (buildEntity (fun _ => false) sampleText (str "lib.js")
              (buildLinkable (str "lib.js") (notIgnored [exampleFoo])) m) /\
     declaredName m = Some declared /\
     str "lib.js-foo" = slugSpec (str "lib.js" ++ str "-" ++ declared)) /\
  isSlug (str "lib.js-foo") = true /\
  map (fun x => (e_uid x, e_type x, e_name x, e_params x))
      (parser (fun _ => false) sampleText [exampleFoo] (str "lib.js")) =
    [(Some (str "lib.js-foo"), Some (str "method"), Some (str "foo"), str "a")].
Proof.
  apply (C2_uid_is_slug (fun _ => false) sampleText [exampleFoo] (str "lib.js")
           (fst (buildEntity (fun _ => false) sampleText (str "lib.js") ∅ exampleFoo))
           (str "lib.js-foo")).
  - left. reflexivity.
  - reflexivity.
Defined.

(** C2 as stated fails on its own example: the period of [lib.js] is kept
    by the identifier. *)
Lemma C2_counterexample :
  (forall icaseExtra nativeText,
     map e_uid (parser icaseExtra nativeText [exampleFoo] (str "lib.js")) =
       [Some (str "lib.js-foo")]) /\
  str "lib.js-foo" <> str "lib-js-foo".
Proof. split; [intros; reflexivity|discriminate]. Qed.

Lemma C5_index_before_links_witness :
  exists doc,
    In doc (g_param (e_tags
              (fst (buildEntity (fun _ => false) sampleText (str "lib.js")
                      (buildLinkable (str "lib.js")
                         (notIgnored [exampleUser; exampleOptions]))
                      exampleUser)))) /\
    In (anchor (str "lib.js-options") (str "Options")) (p_types doc).
Proof.
  destruct (proj1 (proj2 (C5_index_before_links (fun _ => false) sampleText
                            [exampleUser; exampleOptions] (str "lib.js")))
              exampleUser (paramTag "o" false [str "Options"]) (str "Options")
              [exampleUser] exampleOptions (declTag "typedef" "Options")
              [paramTag "x" false []] [])
    as (_ & H & _).
  - left. reflexivity.
  - left. reflexivity.
  - left. reflexivity.
  - reflexivity.
  - reflexivity.
  - reflexivity.
  - intros m [].
  - discriminate.
  - reflexivity.
  - discriminate.
  - apply H. reflexivity.
Defined.

(** The reference of [exampleUser] to [Options] becomes the same hyperlink
    whether the typedef comes after it or before it. *)
Example forward_and_backward_reference :
  forall icaseExtra nativeText,
    let link := str "<a href=" ++ [DQUOTE] ++ str "#lib.js-options" ++
                [DQUOTE] ++ str ">Options</a>" in
    map (fun e => map p_types (g_param (e_tags e)))
        (parser icaseExtra nativeText [exampleUser; exampleOptions] (str "lib.js")) =
      [[[link]]; [[]]] /\
    map (fun e => map p_types (g_param (e_tags e)))
        (parser icaseExtra nativeText [exampleOptions; exampleUser] (str "lib.js")) =
      [[[link]]; [[]]].
Proof. intros. split; reflexivity. Qed.

(** C7 as stated fails when a second optional parameter follows a required
    one: only the first [", ["] is turned around. *)
Lemma C7_counterexample :
  paramsString exampleMixed = str "a[, b], c, [d]" /\
  paramsStringAllTurned exampleMixed = str "a[, b], c[, d]".
Proof. split; reflexivity. Qed.

(** * Further properties of the formatters *)

(** ** The identifier formatter *)

Lemma collapseRuns_kept s : forall b,
  keptUnits (collapseRuns b s) = keptUnits s.
Proof.
  unfold keptUnits.
  induction s as [|c r IH]; intros b; [reflexivity|].
  cbn [collapseRuns List.filter].
  destruct (isUidUnit c) eqn:Hc.
  - cbn [List.filter]. rewrite Hc, IH. reflexivity.
  - destruct b; [apply IH|].
    cbn [List.filter]. replace (isUidUnit HYPHEN) with false by reflexivity.
    apply IH.
Qed.

Lemma stripLeadingHyphen_kept s :
  keptUnits (stripLeadingHyphen s) = keptUnits s.
Proof.
  destruct s as [|c r]; [reflexivity|]. cbn [stripLeadingHyphen].
  destruct (c =? HYPHEN)%N eqn:Hc; [|reflexivity].
  apply N.eqb_eq in Hc. subst c. reflexivity.
Qed.

Lemma stripTrailingHyphen_kept s :
  keptUnits (stripTrailingHyphen s) = keptUnits s.
Proof.
  induction s as [|c r IH]; [reflexivity|].
  destruct r as [|d r'].
  - cbn [stripTrailingHyphen]. destruct (c =? HYPHEN)%N eqn:Hc; [|reflexivity].
    apply N.eqb_eq in Hc. subst c. reflexivity.
  - change (stripTrailingHyphen (c :: d :: r'))
      with (c :: stripTrailingHyphen (d :: r')).
    unfold keptUnits in *. cbn [List.filter]. rewrite IH. reflexivity.
Qed.

Lemma formatStringForUID_kept s :
  keptUnits (formatStringForUID s) = keptUnits (toLowerCase s).
Proof.
  unfold formatStringForUID, stripHyphens.
  rewrite stripTrailingHyphen_kept, stripLeadingHyphen_kept.
  apply collapseRuns_kept.
Qed.

Lemma slug_has_kept s : forall b,
  slugFrom b s = true -> s <> [] -> keptUnits s <> [].
Proof.
  induction s as [|c r IH]; intros b H Hne; [contradiction|].
  cbn [slugFrom] in H. unfold keptUnits. cbn [List.filter].
  destruct (isSlugUnit c) eqn:Hc.
  - rewrite (isSlugUnit_uid _ Hc). discriminate.
  - apply andb_true_iff in H as [H1 H2].
    apply andb_true_iff in H1 as [H1 _]. apply N.eqb_eq in H1. subst c.
    replace (isUidUnit HYPHEN) with false by reflexivity.
    destruct r as [|d r']; [discriminate|].
    apply (IH true H2). discriminate.
Qed.

Lemma slug_units l : forall b,
  slugFrom b l = true -> Forall (fun c => isUidUnit c = true \/ c = HYPHEN) l.
Proof.
  induction l as [|x l IH]; intros b H; [constructor|].
  cbn [slugFrom] in H. destruct (isSlugUnit x) eqn:Hx.
  - constructor; [left; apply isSlugUnit_uid; exact Hx|eauto].
  - apply andb_true_iff in H as [H1 H2].
    apply andb_true_iff in H1 as [H1 _]. apply N.eqb_eq in H1.
    constructor; [right; exact H1|eauto].
Qed.

(** X1. The identifier keeps every letter, digit, underscore and period of
    the lower-cased input, in their order, and adds nothing but hyphens;
    it is empty exactly when the lower-cased input has no such unit. *)
Theorem X1_uid_keeps_units (s : jsstring) :
  keptUnits (formatStringForUID s) = keptUnits (toLowerCase s) /\
  Forall (fun c => isUidUnit c = true \/ c = HYPHEN) (formatStringForUID s) /\
  (formatStringForUID s = [] <-> keptUnits (toLowerCase s) = []).
Proof.
  split; [apply formatStringForUID_kept|]. split.
  - pose proof (formatStringForUID_isSlug s) as H. unfold isSlug in H.
    destruct (formatStringForUID s) as [|c r]; [constructor|].
    eapply slug_units. exact H.
  - rewrite <- formatStringForUID_kept. split; [intros ->; reflexivity|].
    intros Hk. pose proof (formatStringForUID_isSlug s) as H. unfold isSlug in H.
    destruct (formatStringForUID s) as [|c r] eqn:E; [reflexivity|].
    exfalso. eapply slug_has_kept; eauto.
Qed.

(** X2. The identifier formatter returns its input unchanged exactly on the
    strings that have the shape of an identifier. *)
Theorem X2_uid_fixed_points (r : jsstring) :
  formatStringForUID r = r <-> isSlug r = true.
Proof.
  split; [|apply slug_fixed].
  intros <-. apply formatStringForUID_isSlug.
Qed.

Lemma toLowerCase_app a b : toLowerCase (a ++ b) = toLowerCase a ++ toLowerCase b.
Proof. unfold toLowerCase. apply flat_map_app. Qed.

Lemma collapseRuns_app a c : forall b,
  collapseRuns b (a ++ c) = collapseRuns b a ++ collapseRuns (endState b a) c.
Proof.
  induction a as [|x r IH]; intros b; [reflexivity|].
  cbn [app collapseRuns endState].
  destruct (isUidUnit x); cbn [negb].
  - rewrite IH. reflexivity.
  - destruct b; rewrite IH; reflexivity.
Qed.

Lemma endState_snoc a x : forall b, endState b (a ++ [x]) = negb (isUidUnit x).
Proof. induction a as [|y r IH]; intros b; [reflexivity|]. cbn. apply IH. Qed.

Lemma stripTrailingHyphen_app p y :
  y <> [] -> stripTrailingHyphen (p ++ y) = p ++ stripTrailingHyphen y.
Proof.
  intros Hy. induction p as [|c p IH]; [reflexivity|].
  cbn [app]. destruct (p ++ y) as [|d t] eqn:E.
  - destruct p; [cbn in E; contradiction|discriminate].
  - change (stripTrailingHyphen (c :: d :: t)) with (c :: stripTrailingHyphen (d :: t)).
    rewrite IH. reflexivity.
Qed.

Lemma stripLeadingHyphen_app x r :
  x <> [] -> stripLeadingHyphen (x ++ r) = stripLeadingHyphen x ++ r.
Proof.
  destruct x as [|c x]; [contradiction|]. intros _.
  cbn [app stripLeadingHyphen]. destruct (c =? HYPHEN)%N; reflexivity.
Qed.

Lemma stripHyphens_comm l :
  stripLeadingHyphen (stripTrailingHyphen l) =
  stripTrailingHyphen (stripLeadingHyphen l).
Proof.
  destruct l as [|c [|d r]]; [reflexivity| |].
  - cbn [stripTrailingHyphen stripLeadingHyphen].
    destruct (c =? HYPHEN)%N eqn:E; cbn [stripTrailingHyphen stripLeadingHyphen];
      rewrite ?E; reflexivity.
  - change (stripTrailingHyphen (c :: d :: r)) with (c :: stripTrailingHyphen (d :: r)).
    cbn [stripLeadingHyphen].
    destruct (c =? HYPHEN)%N; reflexivity.
Qed.

Lemma collapseRuns_close a :
  collapseRuns false a ++ (if endState false a then [] else [HYPHEN]) =
  stripTrailingHyphen (collapseRuns false a) ++ [HYPHEN].
Proof.
  induction a as [|x a IH] using rev_ind; [reflexivity|].
  rewrite collapseRuns_app, endState_snoc. cbn [collapseRuns].
  destruct (isUidUnit x) eqn:Hx; cbn [negb].
  - rewrite stripTrailingHyphen_app by discriminate.
    cbn [stripTrailingHyphen].
    destruct (x =? HYPHEN)%N eqn:E; [|reflexivity].
    apply N.eqb_eq in E. subst x. discriminate.
  - destruct (endState false a).
    + rewrite !app_nil_r in *. exact IH.
    + rewrite app_nil_r. rewrite stripTrailingHyphen_app by discriminate.
      cbn [stripTrailingHyphen]. rewrite N.eqb_refl. rewrite app_nil_r. reflexivity.
Qed.

Lemma collapseRuns_open b :
  collapseRuns true b = stripLeadingHyphen (collapseRuns false b).
Proof.
  destruct b as [|c r]; [reflexivity|]. cbn [collapseRuns].
  destruct (isUidUnit c) eqn:Hc; cbn [stripLeadingHyphen].
  - destruct (c =? HYPHEN)%N eqn:E; [|reflexivity].
    apply N.eqb_eq in E. subst c. discriminate.
  - rewrite N.eqb_refl. reflexivity.
Qed.

(** X3. When the file name and the declared name both have a non-empty
    identifier, the identifier of the file name, a hyphen and the name is
    the identifier of the file name, a hyphen and the identifier of the
    name. *)
Theorem X3_uid_of_joined_names (filename name : jsstring) :
  formatStringForUID filename <> [] ->
  formatStringForUID name <> [] ->
  formatStringForUID (filename ++ str "-" ++ name) =
    formatStringForUID filename ++ str "-" ++ formatStringForUID name.
Proof.
  unfold formatStringForUID, stripHyphens. intros Ha Hb.
  rewrite !toLowerCase_app.
  set (a := toLowerCase filename) in *. set (b := toLowerCase name) in *.
  change (toLowerCase (str "-")) with [HYPHEN]. change (str "-") with [HYPHEN].
  rewrite collapseRuns_app. cbn [app collapseRuns].
  replace (isUidUnit HYPHEN) with false by reflexivity.
  assert (E : collapseRuns false a ++
              (if endState false a then collapseRuns true b
               else HYPHEN :: collapseRuns true b) =
              stripTrailingHyphen (collapseRuns false a) ++ [HYPHEN] ++
              stripLeadingHyphen (collapseRuns false b)).
  { rewrite <- collapseRuns_open, app_assoc, <- collapseRuns_close.
    destruct (endState false a); rewrite <- app_assoc; reflexivity. }
  rewrite E. clear E.
  rewrite <- stripHyphens_comm in Ha.
  assert (Hx : stripTrailingHyphen (collapseRuns false a) <> []).
  { intros H. rewrite H in Ha. apply Ha. reflexivity. }
  assert (Hy : stripLeadingHyphen (collapseRuns false b) <> []).
  { intros H. rewrite H in Hb. apply Hb. reflexivity. }
  rewrite stripLeadingHyphen_app by exact Hx.
  rewrite app_assoc, stripTrailingHyphen_app by exact Hy.
  rewrite <- app_assoc, stripHyphens_comm. reflexivity.
Qed.

Lemma X3_uid_of_joined_names_witness :
  formatStringForUID (str "src/Lib.js" ++ str "-" ++ str "Foo#bar()") =
    str "src-lib.js-foo-bar".
Proof.
  rewrite (X3_uid_of_joined_names (str "src/Lib.js") (str "Foo#bar()"));
    [reflexivity|discriminate|discriminate].
Defined.

(** ** The parameter and name formatters *)

Lemma removeUnits_fixed cls s :
  removeUnits cls s = s <-> Forall (fun c => cls c = false) s.
Proof.
  split.
  - intros <-. apply removeUnits_plain.
  - unfold removeUnits. induction 1 as [|c r Hc _ IH]; [reflexivity|].
    cbn [List.filter]. rewrite Hc. cbn [negb]. f_equal. exact IH.
Qed.

(** X4. The parameter formatter leaves no square bracket in its result,
    and returns its input unchanged exactly when the input has none. *)
Theorem X4_param_without_brackets (s : jsstring) :
  Forall (fun c => c <> LBRACKET /\ c <> RBRACKET) (formatStringForParam s) /\
  (formatStringForParam s = s <->
   Forall (fun c => c <> LBRACKET /\ c <> RBRACKET) s).
Proof.
  assert (E : forall l, Forall (fun c => isBracket c = false) l <->
                        Forall (fun c => c <> LBRACKET /\ c <> RBRACKET) l).
  { intros l. apply Forall_iff. intros c. unfold isBracket.
    rewrite orb_false_iff, !N.eqb_neq. reflexivity. }
  split.
  - apply E. apply removeUnits_plain.
  - rewrite <- E. apply removeUnits_fixed.
Qed.

Lemma replaceLit_length alts s : forall k,
  (length (replaceLit alts [] k s) <= length s)%nat.
Proof.
  induction s as [|c r IH]; intros k; [reflexivity|].
  cbn [replaceLit]. destruct k as [|k].
  - destruct (firstPrefix alts (c :: r)).
    + cbn [app length]. specialize (IH (length l - 1)%nat). lia.
    + cbn [length]. specialize (IH 0%nat). lia.
  - cbn [length]. specialize (IH k). lia.
Qed.

Lemma replaceLit_shrinks alts s :
  hasMatch alts s = true ->
  (length (replaceLit alts [] 0 s) < length s)%nat.
Proof.
  induction s as [|c r IH]; [discriminate|].
  cbn [hasMatch replaceLit]. destruct (firstPrefix alts (c :: r)) as [p|].
  - intros _. cbn [app length].
    pose proof (replaceLit_length alts r (length p - 1)). lia.
  - intros H. cbn [length]. specialize (IH H). lia.
Qed.

(** X5. For a kind other than callback the name formatter never makes a
    string longer, and returns it unchanged exactly when none of the
    three substrings it removes occurs in it. *)
Theorem X5_name_unchanged (x type : jsstring) :
  type <> str "callback" ->
  (length (formatStringForName x type) <= length x)%nat /\
  (formatStringForName x type = x <-> hasMatch namePatterns x = false).
Proof.
  intros Ht. rewrite (formatStringForName_plain x type Ht).
  unfold stripNamePatterns. split; [apply replaceLit_length|].
  split; [|apply replaceLit_no_match].
  intros E. destruct (hasMatch namePatterns x) eqn:H; [|reflexivity].
  apply (replaceLit_shrinks namePatterns) in H. rewrite E in H. lia.
Qed.

Lemma X5_name_unchanged_witness :
  (length (formatStringForName (str "Foo.prototype.bar()") (str "typedef")) <=
     length (str "Foo.prototype.bar()"))%nat /\
  (formatStringForName (str "Foo.prototype.bar()") (str "typedef") =
     str "Foo.prototype.bar()" <->
   hasMatch namePatterns (str "Foo.prototype.bar()") = false).
Proof.
  apply (X5_name_unchanged (str "Foo.prototype.bar()") (str "typedef")).
  discriminate.
Defined.

Lemma dropLetters_app ty rest :
  Forall (fun c => isLetter c = true) ty ->
  dropLetters (ty ++ RBRACE :: rest) = RBRACE :: rest.
Proof.
  induction 1 as [|c r Hc _ IH]; [reflexivity|].
  cbn [app dropLetters]. rewrite Hc. exact IH.
Qed.

Lemma stripAnnotation_braces ty rest :
  Forall (fun c => isLetter c = true) ty ->
  stripAnnotation (str "{" ++ ty ++ str "} " ++ rest) = rest.
Proof.
  intros H. change (str "{" ++ ty ++ str "} " ++ rest)
    with (LBRACE :: (ty ++ RBRACE :: SPACE :: rest)).
  cbn [stripAnnotation]. rewrite N.eqb_refl.
  rewrite (dropLetters_app ty (SPACE :: rest) H).
  rewrite !N.eqb_refl. reflexivity.
Qed.

(** X6. The name under which a callback is registered in the index is its
    tag string formatted as a plain name: the marker that the name
    formatter puts in front of a callback is taken off again, so the
    entity's name is the marker followed by the registered name. More
    generally a leading annotation of letters in braces, with the space
    after it, is not part of a registered name. *)
Theorem X6_registered_name_without_marker (t : Tag) :
  t_type t = str "callback" ->
  linkName t = formatStringForName (t_string t) [] /\
  formatStringForName (t_string t) (t_type t) = str "{Function} " ++ linkName t /\
  (forall ty rest,
     Forall (fun c => isLetter c = true) ty ->
     stripAnnotation (str "{" ++ ty ++ str "} " ++ rest) = rest).
Proof.
  intros Ht. unfold linkName, formatStringForName. rewrite Ht.
  destruct (decide (str "callback" = str "callback")) as [_|n]; [|contradiction].
  destruct (decide ([] = str "callback")) as [e|_]; [discriminate e|].
  change (str "{Function} " ++ stripNamePatterns (t_string t))
    with (str "{" ++ str "Function" ++ str "} " ++ stripNamePatterns (t_string t))
    at 1.
  rewrite (stripAnnotation_braces (str "Function") (stripNamePatterns (t_string t)))
    by (repeat constructor).
  split; [reflexivity|]. split; [reflexivity|].
  apply stripAnnotation_braces.
Qed.

Lemma X6_registered_name_without_marker_witness :
  linkName (declTag "callback" "module.exports.done()") = str "done" /\
  formatStringForName (str "module.exports.done()") (str "callback") =
    str "{Function} done".
Proof.
  destruct (X6_registered_name_without_marker
              (declTag "callback" "module.exports.done()") eq_refl)
    as (H1 & H2 & _).
  split; [rewrite H1; reflexivity|].
  change (str "module.exports.done()")
    with (t_string (declTag "callback" "module.exports.done()")).
  change (str "callback") with (t_type (declTag "callback" "module.exports.done()")).
  rewrite H2, H1. reflexivity.
Defined.

(** ** The link formatter *)

Lemma digitsOf_inj d1 : forall d2, digitsOf d1 = digitsOf d2 -> d1 = d2.
Proof.
  induction d1; intros d2 H; destruct d2; cbn [digitsOf] in H;
    try discriminate H; try reflexivity;
    injection H as H; f_equal; auto.
Qed.

Lemma decimal_inj a b : decimal a = decimal b -> a = b.
Proof.
  unfold decimal. intros H. apply digitsOf_inj in H.
  rewrite <- (DecimalN.Unsigned.of_to a), <- (DecimalN.Unsigned.of_to b), H.
  reflexivity.
Qed.

Lemma digits_then_semicolon d1 : forall d2 r1 r2,
  Forall (fun x => isDigit x = true) d1 ->
  Forall (fun x => isDigit x = true) d2 ->
  d1 ++ SEMICOLON :: r1 = d2 ++ SEMICOLON :: r2 -> d1 = d2 /\ r1 = r2.
Proof.
  induction d1 as [|x d1 IH]; intros [|y d2] r1 r2 H1 H2 E; cbn [app] in E.
  - injection E as ->. auto.
  - injection E as <- _. inversion H2; subst. discriminate.
  - injection E as -> _. inversion H1; subst. discriminate.
  - injection E as -> E. inversion H1; inversion H2; subst.
    destruct (IH d2 r1 r2) as [-> ->]; auto.
Qed.

Lemma decimal_digits n : Forall (fun x => isDigit x = true) (decimal n).
Proof.
  apply Forall_forall. intros x Hx. apply list_elem_of_In in Hx.
  eapply digitsOf_digits. exact Hx.
Qed.

Section LinkMore.
Variable icaseExtra : N -> bool.
Variable nativeText : jsstring -> jsstring.

Lemma escapeHtml_inj s1 : forall s2,
  escapeHtml icaseExtra s1 = escapeHtml icaseExtra s2 -> s1 = s2.
Proof.
  unfold escapeHtml.
  induction s1 as [|c1 r1 IH]; intros [|c2 r2] E; [reflexivity| | |].
  - cbn [flat_map] in E. unfold escapeUnit, charRef in E.
    destruct (needsEscape icaseExtra c2); discriminate E.
  - cbn [flat_map] in E. unfold escapeUnit, charRef in E.
    destruct (needsEscape icaseExtra c1); discriminate E.
  - cbn [flat_map] in E. unfold escapeUnit at 1 3 in E.
    destruct (needsEscape icaseExtra c1) eqn:N1,
             (needsEscape icaseExtra c2) eqn:N2.
    + unfold charRef in E. rewrite <- !app_assoc in E. cbn [app] in E.
      injection E as E.
      apply digits_then_semicolon in E as [E1 E2]; try apply decimal_digits.
      apply decimal_inj in E1. subst c2. f_equal. auto.
    + unfold charRef in E. cbn [app] in E. injection E as <- _.
      apply needsEscape_markup in N2. discriminate.
    + unfold charRef in E. cbn [app] in E. injection E as -> _.
      apply needsEscape_markup in N1. discriminate.
    + cbn [app] in E. injection E as -> E. f_equal. auto.
Qed.

Lemma escapeUnit_length c :
  (if needsEscape icaseExtra c then 1 < length (escapeUnit icaseExtra c)
   else length (escapeUnit icaseExtra c) = 1)%nat.
Proof.
  unfold escapeUnit. destruct (needsEscape icaseExtra c); [|reflexivity].
  unfold charRef. rewrite !length_app. cbn [length]. lia.
Qed.

Lemma escapeHtml_length s :
  (length s <= length (escapeHtml icaseExtra s))%nat /\
  (existsb (needsEscape icaseExtra) s = true ->
   length s < length (escapeHtml icaseExtra s))%nat.
Proof.
  unfold escapeHtml. induction s as [|c r [IH1 IH2]]; [split; [reflexivity|discriminate]|].
  cbn [flat_map existsb]. rewrite length_app. cbn [length].
  pose proof (escapeUnit_length c) as Hc.
  destruct (needsEscape icaseExtra c); cbn [orb].
  - split; [lia|intros _; lia].
  - split; [lia|]. intros H. specialize (IH2 H). lia.
Qed.

Lemma escapeHtml_plain s :
  existsb (needsEscape icaseExtra) s = false -> escapeHtml icaseExtra s = s.
Proof.
  unfold escapeHtml. induction s as [|c r IH]; [reflexivity|].
  cbn [existsb flat_map]. intros H. apply orb_false_iff in H as [H1 H2].
  unfold escapeUnit at 1. rewrite H1. cbn [app]. f_equal. auto.
Qed.

(** X7. The formatter does not see square brackets: a type written as
    optional resolves like the bare type. A type for which
    linkableObjects[key] is not true is never made shorter, and is
    returned as written (without brackets) exactly when none of its units
    is matched by the escaping pattern. *)
Theorem X7_brackets_and_plain_types (content : jsstring)
    (linkableObjects : gmap jsstring jsstring) :
  let key := formatStringForParam content in
  let out := formatStringWithLinkable icaseExtra nativeText content linkableObjects in
  out = formatStringWithLinkable icaseExtra nativeText key linkableObjects /\
  (isLinked linkableObjects key = false ->
   (length key <= length out)%nat /\
   (out = key <-> existsb (needsEscape icaseExtra) key = false)).
Proof.
  intros key out. subst key out. split.
  - unfold formatStringWithLinkable, formatStringForParam.
    rewrite removeUnits_idempotent. reflexivity.
  - intros H. unfold formatStringForParam in *.
    rewrite (formatStringWithLinkable_escapes _ _ _ _ H).
    split; [apply escapeHtml_length|].
    split; [|apply escapeHtml_plain].
    intros E. destruct (existsb _ _) eqn:Hx; [|reflexivity].
    apply escapeHtml_length in Hx. rewrite E in Hx. lia.
Qed.

(** X8. Escaping loses nothing: two types for which linkableObjects[key]
    is not true and which have the same result are the same type up to
    square brackets. *)
Theorem X8_escaping_injective (a b : jsstring)
    (linkableObjects : gmap jsstring jsstring) :
  isLinked linkableObjects (formatStringForParam a) = false ->
  isLinked linkableObjects (formatStringForParam b) = false ->
  formatStringWithLinkable icaseExtra nativeText a linkableObjects =
    formatStringWithLinkable icaseExtra nativeText b linkableObjects ->
  formatStringForParam a = formatStringForParam b.
Proof.
  unfold formatStringForParam. intros Ha Hb.
  rewrite (formatStringWithLinkable_escapes _ _ _ _ Ha).
  rewrite (formatStringWithLinkable_escapes _ _ _ _ Hb).
  apply escapeHtml_inj.
Qed.
End LinkMore.

Lemma X8_escaping_injective_witness :
  formatStringForParam (str "[Array<T>]") = formatStringForParam (str "Array<T>").
Proof.
  apply (X8_escaping_injective (fun _ => false) sampleText
           (str "[Array<T>]") (str "Array<T>") ∅); reflexivity.
Defined.

(** * Further properties of the index and of the parser *)

Lemma declarations_app n l1 l2 :
  declarations n (l1 ++ l2) = declarations n l1 ++ declarations n l2.
Proof. unfold declarations. apply flat_map_app. Qed.

Lemma declarations_single n m :
  declarations n [m] =
    match m_tags m with
    | t :: _ => if declares m n then [t] else []
    | [] => []
    end.
Proof. unfold declarations. cbn [flat_map]. apply app_nil_r. Qed.

(** X9. The index maps a name to the identifier of the last comment of the
    batch that registers it, and has no entry for a name that no comment
    registers: a later declaration of a name replaces an earlier one.
    Nothing is ever stored under the name [__proto__]. *)
Theorem X9_index_last_declaration_wins (filename n : jsstring)
    (methods : list ParsedComment) :
  buildLinkable filename methods !! n =
    tagUID filename <$> last (declarations n methods) /\
  declarations PROTO methods = [] /\
  buildLinkable filename methods !! PROTO = None.
Proof.
  split; [|split; [|apply buildLinkable_no_proto]].
  - unfold buildLinkable.
    induction methods as [|m l IH] using rev_ind; [apply lookup_empty|].
    rewrite fold_left_app, declarations_app. cbn [fold_left].
    rewrite registerLinkable_lookup, IH, declarations_single.
    destruct (m_tags m) as [|t rest]; [rewrite app_nil_r; reflexivity|].
    destruct (declares m n).
    + rewrite last_snoc. reflexivity.
    + rewrite app_nil_r. reflexivity.
  - induction methods as [|m l IH]; [reflexivity|].
    change (m :: l) with ([m] ++ l).
    rewrite declarations_app, IH, declarations_single, declares_proto.
    destruct (m_tags m); reflexivity.
Qed.

Lemma fold_register_plain filename methods : forall idx,
  Forall (fun m => isCallbackOrTypedef m = false) methods ->
  fold_left (registerLinkable filename) methods idx = idx.
Proof.
  induction methods as [|m l IH]; intros idx H; [reflexivity|].
  inversion H as [|? ? Hm Hl]; subst. cbn [fold_left].
  unfold registerLinkable at 2. rewrite Hm. apply IH. exact Hl.
Qed.

Section ParserMore.
Variable icaseExtra : N -> bool.
Variable nativeText : jsstring -> jsstring.

(** X10. When no comment of the batch that is not ignored is a callback or
    typedef, the index is empty, and every type of every entity that is
    not the name of a member inherited from Object.prototype is escaped:
    no identifier of the batch is linked. *)
Theorem X10_no_declaration_no_link (comments : list ParsedComment)
    (filename : jsstring) :
  (forall m, In m comments -> m_ignore m = false ->
             isCallbackOrTypedef m = false) ->
  buildLinkable filename (notIgnored comments) = ∅ /\
  forall e, In e (parser icaseExtra nativeText comments filename) ->
    exists m, In m comments /\
      e_tags e = tagGroups icaseExtra nativeText ∅ (m_tags m) /\
      forall type, inherited (formatStringForParam type) = false ->
        formatStringWithLinkable icaseExtra nativeText type ∅ =
        escapeHtml icaseExtra (formatStringForParam type).
Proof.
  intros H.
  assert (E : buildLinkable filename (notIgnored comments) = ∅).
  { apply fold_register_plain. apply Forall_forall. intros m Hm.
    apply list_elem_of_In, notIgnored_In in Hm as [H1 H2]. auto. }
  split; [exact E|]. intros e He.
  apply parser_In in He as (m & H1 & H2 & _ & ->).
  exists m. split; [exact H1|]. rewrite buildEntity_tags, E.
  split; [reflexivity|]. intros type Hi. unfold formatStringForParam in *.
  apply formatStringWithLinkable_escapes. unfold isLinked.
  rewrite (getProperty_own _ _ Hi), lookup_empty. reflexivity.
Qed.
End ParserMore.

Lemma X10_no_declaration_no_link_witness :
  buildLinkable (str "lib.js") (notIgnored [exampleFoo; ignored exampleOptions]) = ∅.
Proof.
  apply (X10_no_declaration_no_link (fun _ => false) sampleText
           [exampleFoo; ignored exampleOptions] (str "lib.js")).
  intros m [<-|[<-|[]]] H; [reflexivity|discriminate H].
Defined.

Lemma filter_map_comm {X Y} (f : X -> Y) (p : Y -> bool) (l : list X) :
  List.filter p (map f l) = map f (List.filter (fun x => p (f x)) l).
Proof.
  induction l as [|x l IH]; [reflexivity|].
  cbn [map List.filter]. destruct (p (f x)); cbn [map]; rewrite IH; reflexivity.
Qed.

Lemma filter_filter_and {X} (p q : X -> bool) (l : list X) :
  List.filter p (List.filter q l) = List.filter (fun x => q x && p x) l.
Proof.
  induction l as [|x l IH]; [reflexivity|].
  cbn [List.filter]. destruct (q x); cbn [andb List.filter];
    [destruct (p x)|]; rewrite IH; reflexivity.
Qed.

Section ParserShape.
Variable icaseExtra : N -> bool.
Variable nativeText : jsstring -> jsstring.

(** X11. The output holds exactly one entity for every comment that is not
    ignored and has a description or a tag, each built with the index of
    the whole batch; sorting only reorders them. *)
Theorem X11_output_is_the_kept_comments (comments : list ParsedComment)
    (filename : jsstring) :
  let linkableObjects := buildLinkable filename (notIgnored comments) in
  Permutation (parser icaseExtra nativeText comments filename)
    (map (fun m => fst (buildEntity icaseExtra nativeText filename linkableObjects m))
         (List.filter isKept comments)) /\
  length (parser icaseExtra nativeText comments filename) =
    length (List.filter isKept comments).
Proof.
  intros idx.
  assert (P : Permutation (parser icaseExtra nativeText comments filename)
    (map (fun m => fst (buildEntity icaseExtra nativeText filename idx m))
         (List.filter isKept comments))).
  { unfold parser. fold (notIgnored comments). fold idx.
    rewrite Array_sort_perm, filter_map_comm. unfold notIgnored.
    rewrite filter_filter_and.
    erewrite (filter_ext _ isKept); [reflexivity|].
    intros m. unfold isKept. rewrite buildEntity_empty. reflexivity. }
  split; [exact P|].
  rewrite (Permutation_length P). apply length_map.
Qed.

Lemma isCallbackOrTypedef_no_tags m :
  m_tags m = [] -> isCallbackOrTypedef m = false.
Proof. unfold isCallbackOrTypedef. intros ->. reflexivity. Qed.

(** X12. A comment that is ignored, or that has neither a description nor
    a tag, leaves no trace: the output is the one of the batch without
    it. *)
Theorem X12_dropped_comment_leaves_no_trace (before after : list ParsedComment)
    (m : ParsedComment) (filename : jsstring) :
  isKept m = false ->
  parser icaseExtra nativeText (before ++ m :: after) filename =
    parser icaseExtra nativeText (before ++ after) filename.
Proof.
  intros H. unfold parser. rewrite !List.filter_app. cbn [List.filter].
  destruct (m_ignore m) eqn:Hi; cbn [negb]; [reflexivity|].
  unfold isKept in H. rewrite Hi in H. cbn [negb andb] in H.
  apply negb_false_iff in H.
  assert (Ht : m_tags m = []).
  { apply andb_true_iff in H as [_ H]. destruct (m_tags m); [reflexivity|discriminate]. }
  rewrite (buildLinkable_skip filename _ _ m (isCallbackOrTypedef_no_tags m Ht)).
  rewrite !List.map_app, !List.filter_app. cbn [map List.filter].
  rewrite buildEntity_empty, H. reflexivity.
Qed.
End ParserShape.

Lemma X12_dropped_comment_leaves_no_trace_witness :
  parser (fun _ => false) sampleText ([exampleUser] ++ comment "" [] (methodCtx "f") 3 ::
                           [exampleOptions]) (str "lib.js") =
    parser (fun _ => false) sampleText ([exampleUser] ++ [exampleOptions]) (str "lib.js").
Proof.
  apply (X12_dropped_comment_leaves_no_trace (fun _ => false) sampleText). reflexivity.
Defined.

Section ParserTypes.
Variable icaseExtra : N -> bool.
Variable nativeText : jsstring -> jsstring.

Lemma formatStringWithLinkable_resolved type idx :
  resolvedType nativeText idx
    (formatStringWithLinkable icaseExtra nativeText type idx).
Proof.
  unfold formatStringWithLinkable, resolvedType.
  set (key := removeUnits isBracket type).
  destruct (idx !! key) as [[|c u]|] eqn:E.
  - unfold getProperty. rewrite E. cbn [truthy].
    right. right. split; [apply escapeHtml_escaped|apply escapeHtml_no_angle].
  - unfold getProperty. rewrite E. cbn [truthy valueText].
    left. exists key, (c :: u).
    split; [exact E|]. split; [discriminate|reflexivity].
  - destruct (getProperty idx key) as [v|] eqn:G.
    + assert (Hv : truthy v = true /\ inherited key = true).
      { unfold getProperty in G. rewrite E in G. unfold inherited.
        destruct (bool_decide (key = PROTO));
          [injection G as <-; split; reflexivity|].
        destruct (bool_decide (key ∈ prototypeFunctions));
          [injection G as <-; split; reflexivity|discriminate G]. }
      destruct Hv as [Hv Hi]. rewrite Hv.
      right. left. exists key, v. auto.
    + right. right. split; [apply escapeHtml_escaped|apply escapeHtml_no_angle].
Qed.

Lemma paramDoc_resolved idx tag :
  Forall (resolvedType nativeText idx) (p_types (paramDoc icaseExtra nativeText idx tag)) /\
  Forall (fun c => isBracket c = false) (p_name (paramDoc icaseExtra nativeText idx tag)).
Proof.
  split.
  - cbn [paramDoc p_types]. apply Forall_forall. intros ty Hty.
    apply list_elem_of_In, in_map_iff in Hty as (t & <- & _).
    apply formatStringWithLinkable_resolved.
  - apply removeUnits_plain.
Qed.

(** X13. In every entity of the output, every type of every param,
    property and return entry is the hyperlink to an identifier that the
    index of the batch holds, or the hyperlink to the text of a member
    inherited from Object.prototype whose name the index does not hold,
    or a text without < and > in which & only starts a numeric character
    reference; and no param or property name holds a square bracket. *)
Theorem X13_entity_types_are_resolved (comments : list ParsedComment)
    (filename : jsstring) (e : Entity) :
  In e (parser icaseExtra nativeText comments filename) ->
  let linkableObjects := buildLinkable filename (notIgnored comments) in
  Forall (fun d => Forall (resolvedType nativeText linkableObjects) (p_types d) /\
                   Forall (fun c => isBracket c = false) (p_name d))
         (g_param (e_tags e) ++ g_property (e_tags e)) /\
  Forall (fun d => Forall (resolvedType nativeText linkableObjects) (r_types d))
         (g_return (e_tags e)).
Proof.
  intros He idx. apply parser_In in He as (m & _ & _ & _ & ->).
  rewrite buildEntity_tags. fold idx. cbn [tagGroups g_param g_property g_return].
  split.
  - apply Forall_app. split; apply Forall_forall; intros d Hd;
      apply list_elem_of_In, in_map_iff in Hd as (t & <- & _);
      apply paramDoc_resolved.
  - apply Forall_forall. intros d Hd.
    apply list_elem_of_In, in_map_iff in Hd as (t & <- & _).
    cbn [returnDoc r_types]. apply Forall_forall. intros ty Hty.
    apply list_elem_of_In, in_map_iff in Hty as (t' & <- & _).
    apply formatStringWithLinkable_resolved.
Qed.

Lemma hasType_eq ty t : hasType ty t = true -> t_type t = str ty.
Proof. unfold hasType. apply bool_decide_eq_true. Qed.

(** X14. In every entity of the output the identifier, the type and the
    name are set together or not at all. An entity with toBottom is a
    typedef or a callback, and among these notFunction marks the typedefs,
    whose parameters are empty; an entity without toBottom that has
    notFunction is a declaration. *)
Theorem X14_entity_flags (comments : list ParsedComment)
    (filename : jsstring) (e : Entity) :
  In e (parser icaseExtra nativeText comments filename) ->
  (e_uid e = None <-> e_type e = None) /\
  (e_type e = None <-> e_name e = None) /\
  (e_toBottom e = true ->
     (e_type e = Some (str "typedef") /\ e_notFunction e = true /\
      e_params e = []) \/
     (e_type e = Some (str "callback") /\ e_notFunction e = false)) /\
  (e_toBottom e = false -> e_notFunction e = true ->
     e_type e = Some (str "declaration")).
Proof.
  intros He. apply parser_In in He as (m & _ & _ & _ & ->).
  unfold buildEntity.
  destruct (m_ctx m) as [c|].
  - destruct (decide (ctx_type c = str "declaration")) as [E|E]; cbn.
    + rewrite E. repeat split; try discriminate; auto.
    + repeat split; try discriminate; auto.
  - unfold isCallbackOrTypedef.
    destruct (m_tags m) as [|t r] eqn:Et.
    + cbn. repeat split; try discriminate; auto.
    + destruct (hasType "typedef" t) eqn:H1; cbn [orb].
      * cbn. rewrite (hasType_eq _ _ H1).
        repeat split; try discriminate; auto.
      * destruct (hasType "callback" t) eqn:H2.
        -- cbn. rewrite (hasType_eq _ _ H2).
           repeat split; try discriminate; auto.
        -- cbn. repeat split; try discriminate; auto.
Qed.
End ParserTypes.

Lemma X13_entity_types_are_resolved_witness :
  let e := fst (buildEntity (fun _ => false) sampleText (str "lib.js")
                  (buildLinkable (str "lib.js") [exampleUser; exampleOptions])
                  exampleUser) in
  Forall (fun d => Forall (resolvedType sampleText
                     (buildLinkable (str "lib.js")
                        (notIgnored [exampleUser; exampleOptions]))) (p_types d) /\
                   Forall (fun c => isBracket c = false) (p_name d))
         (g_param (e_tags e) ++ g_property (e_tags e)).
Proof.
  apply (X13_entity_types_are_resolved (fun _ => false) sampleText
           [exampleUser; exampleOptions] (str "lib.js")).
  left. reflexivity.
Defined.

Lemma X14_entity_flags_witness :
  let e := fst (buildEntity (fun _ => false) sampleText (str "lib.js")
                  (buildLinkable (str "lib.js") [exampleUser; exampleOptions])
                  exampleOptions) in
  e_type e = Some (str "typedef") /\ e_notFunction e = true /\ e_params e = [] \/
  e_type e = Some (str "callback") /\ e_notFunction e = false.
Proof.
  apply (X14_entity_flags (fun _ => false) sampleText [exampleUser; exampleOptions]
           (str "lib.js")).
  - right. left. reflexivity.
  - reflexivity.
Defined.

(** ** The comparison of entities *)

Lemma strGt_asym a : forall b, strGt a b = true -> strGt b a = false.
Proof.
  induction a as [|x a IH]; intros [|y b] H; try reflexivity; try discriminate.
  cbn [strGt] in *. rewrite (N.eqb_sym y x).
  destruct (x =? y)%N eqn:E; [auto|].
  apply N.ltb_lt in H. apply N.ltb_ge. lia.
Qed.

(** X15. The comparison given to the sort is antisymmetric whenever one of
    the two entities is without toBottom. Between two entities with
    toBottom it is 0 or 1, never negative: it is 1 exactly when the type
    of the first is greater than the type of the second, and the reverse
    comparison is then 0, not -1. *)
Theorem X15_comparison_of_entities (a b : Entity) :
  (e_toBottom a && e_toBottom b = false ->
   compareEntities a b = (- compareEntities b a)%Z) /\
  (e_toBottom a = true -> e_toBottom b = true ->
   (compareEntities a b = 0 \/ compareEntities a b = 1)%Z /\
   (compareEntities a b = 1%Z <-> optGt (e_type a) (e_type b) = true) /\
   (compareEntities a b = 1%Z -> compareEntities b a = 0%Z)).
Proof.
  unfold compareEntities. split.
  - destruct (e_toBottom a), (e_toBottom b); cbn [andb]; intros H;
      try discriminate H; try reflexivity. lia.
  - intros -> ->. cbn [andb].
    destruct (optGt (e_type a) (e_type b)) eqn:E.
    + split; [auto|]. split; [tauto|]. intros _.
      unfold optGt in *. destruct (e_type a), (e_type b); try discriminate E.
      rewrite (strGt_asym _ _ E). reflexivity.
    + split; [auto|]. split; [split; discriminate|discriminate].
Qed.

(** ** The parameters of the usual signatures *)

Lemma join_names n ns : join (str ", ") (n :: ns) = n ++ sepNames ns.
Proof.
  revert n. induction ns as [|m ns IH]; intros n.
  - cbn. rewrite app_nil_r. reflexivity.
  - change (join (str ", ") (n :: m :: ns))
      with (n ++ str ", " ++ join (str ", ") (m :: ns)).
    rewrite IH. cbn [sepNames flat_map].
    rewrite <- !app_assoc. reflexivity.
Qed.

Lemma shownNames_noOpen tags : Forall noOpen (shownNames tags).
Proof.
  apply Forall_forall. intros n Hn.
  apply list_elem_of_In, in_map_iff in Hn as (t & <- & _).
  eapply Forall_impl; [apply (removeUnits_plain isBracket)|].
  intros c Hc ->. discriminate.
Qed.

Lemma sepNames_noOpen ns : Forall noOpen ns -> noOpen (sepNames ns).
Proof.
  induction 1 as [|n ns Hn _ IH]; [constructor|].
  cbn [sepNames flat_map]. fold (sepNames ns).
  repeat (apply Forall_app; split); try assumption.
  repeat constructor; discriminate.
Qed.

Lemma groupedTail_required req : forall rest,
  Forall (fun t => t_optional t = false) req ->
  groupedTail false (map paramItem req ++ rest) =
    sepNames (shownNames req) ++ groupedTail false rest.
Proof.
  induction req as [|t req IH]; intros rest H; [reflexivity|].
  inversion H as [|? ? Ht Hr]; subst.
  cbn [map app groupedTail paramItem shownNames sepNames flat_map].
  rewrite Ht. cbn [andb negb app]. rewrite (IH rest Hr).
  rewrite <- !app_assoc. reflexivity.
Qed.

Lemma groupedTail_optional opt :
  Forall (fun t => t_optional t = true) opt ->
  groupedTail true (map paramItem opt) = sepNames (shownNames opt) ++ [RBRACKET].
Proof.
  induction 1 as [|t opt Ht _ IH]; [reflexivity|].
  cbn [map groupedTail paramItem shownNames sepNames flat_map].
  rewrite Ht. cbn [andb negb app]. rewrite IH.
  rewrite <- !app_assoc. reflexivity.
Qed.

Lemma replaceFirst_skip pat rep c s :
  startsWith pat (c :: s) = false ->
  replaceFirst pat rep (c :: s) = c :: replaceFirst pat rep s.
Proof. intros H. cbn [replaceFirst]. rewrite H. reflexivity. Qed.

Lemma startsWith_open_third c s :
  match s with
  | _ :: y :: _ => y <> LBRACKET
  | _ => True
  end ->
  startsWith (str ", [") (c :: s) = false.
Proof.
  intros H. cbn [str startsWith].
  destruct s as [|x [|y s]]; cbn [startsWith];
    rewrite ?andb_false_r; try reflexivity.
  apply andb_false_iff. right. apply andb_false_iff. right.
  apply andb_false_iff. left. apply N.eqb_neq. intros E. apply H.
  rewrite <- E. reflexivity.
Qed.

Lemma replaceFirst_noOpen rep s :
  noOpen s -> replaceFirst (str ", [") rep s = s.
Proof.
  induction 1 as [|c s Hc Hs IH]; [reflexivity|].
  rewrite replaceFirst_skip, IH; [reflexivity|].
  apply startsWith_open_third.
  destruct s as [|x [|y s]]; [exact I..|].
  inversion Hs as [|? ? _ Hs']; inversion Hs'; subst. assumption.
Qed.

Lemma replaceFirst_first rep a s :
  noOpen a ->
  replaceFirst (str ", [") rep (a ++ str ", [" ++ s) = a ++ rep ++ s.
Proof.
  induction 1 as [|c a Hc Ha IH]; [reflexivity|].
  cbn [app]. rewrite replaceFirst_skip, IH; [reflexivity|].
  apply startsWith_open_third.
  destruct a as [|x [|y a]]; cbn [app str]; try discriminate.
  inversion Ha as [|? ? _ Ha']; inversion Ha'; subst. assumption.
Qed.

(** X16. When the param tags without a period in their name are the
    required ones followed by the optional ones, the parameters are the
    required names joined by a comma and a space, then, in one pair of
    brackets that opens before the comma, the optional names: the usual
    notation of a signature. With no optional tag there is no bracket;
    with no required tag the brackets enclose the whole list. *)
Theorem X16_params_required_then_optional (tags req opt : list Tag) :
  shownParams tags = req ++ opt ->
  Forall (fun t => t_optional t = false) req ->
  Forall (fun t => t_optional t = true) opt ->
  paramsString tags =
    match req, opt with
    | _, [] => join (str ", ") (shownNames req)
    | [], _ :: _ =>
        [LBRACKET] ++ join (str ", ") (shownNames opt) ++ [RBRACKET]
    | _ :: _, _ :: _ =>
        join (str ", ") (shownNames req) ++ str "[, " ++
        join (str ", ") (shownNames opt) ++ [RBRACKET]
    end.
Proof.
  intros E Hr Ho. rewrite paramsString_grouped, E.
  destruct opt as [|o opt].
  - rewrite app_nil_r. destruct req as [|r req]; [reflexivity|].
    inversion Hr as [|? ? Hr1 Hr2]; subst.
    cbn [map grouped paramItem]. rewrite Hr1.
    rewrite <- (app_nil_r (map paramItem req)), (groupedTail_required req [] Hr2).
    cbn [groupedTail app]. rewrite app_nil_r.
    change (formatStringForParam (t_name r) ++ sepNames (shownNames req))
      with (hd [] (shownNames (r :: req)) ++ sepNames (shownNames req)).
    cbn [hd shownNames map]. rewrite <- join_names.
    apply replaceFirst_noOpen.
    rewrite join_names.
    pose proof (shownNames_noOpen (r :: req)) as H. inversion H; subst.
    apply Forall_app. split; [assumption|apply sepNames_noOpen; assumption].
  - inversion Ho as [|? ? Ho1 Ho2]; subst.
    pose proof (shownNames_noOpen (o :: opt)) as Hn. inversion Hn as [|? ? Hn1 Hn2]; subst.
    destruct req as [|r req].
    + cbn [app map grouped paramItem]. rewrite Ho1.
      rewrite (groupedTail_optional opt Ho2).
      cbn [shownNames map]. rewrite join_names.
      cbn [app]. rewrite replaceFirst_skip by reflexivity.
      f_equal.
      assert (T : forall x, noOpen x -> replaceFirst (str ", [") (str "[, ") (x ++ [RBRACKET]) = x ++ [RBRACKET]).
      { intros x Hx. apply replaceFirst_noOpen. apply Forall_app. split; [exact Hx|].
        repeat constructor. discriminate. }
      rewrite app_assoc. apply T.
      apply Forall_app. split; [assumption|apply sepNames_noOpen; assumption].
    + inversion Hr as [|? ? Hr1 Hr2]; subst.
      pose proof (shownNames_noOpen (r :: req)) as Hm. inversion Hm as [|? ? Hm1 Hm2]; subst.
      rewrite List.map_app. cbn [app map grouped paramItem]. rewrite Hr1.
      rewrite (groupedTail_required req (paramItem o :: map paramItem opt) Hr2).
      cbn [map groupedTail paramItem]. rewrite Ho1. cbn [andb negb].
      rewrite (groupedTail_optional opt Ho2).
      cbn [shownNames map]. rewrite !join_names.
      fold (shownNames req). fold (shownNames opt).
      cbn [app].
      rewrite <- !app_assoc.
      rewrite (app_assoc (formatStringForParam (t_name r)) (sepNames (shownNames req))).
      set (a := formatStringForParam (t_name r) ++ sepNames (shownNames req)).
      set (s := formatStringForParam (t_name o) ++
                sepNames (shownNames opt) ++ [RBRACKET]).
      change (replaceFirst (str ", [") (str "[, ") (a ++ str ", [" ++ s) =
              formatStringForParam (t_name r) ++ sepNames (shownNames req) ++
              str "[, " ++ s).
      rewrite replaceFirst_first.
      * subst a. rewrite <- !app_assoc. reflexivity.
      * subst a. apply Forall_app.
        split; [assumption|apply sepNames_noOpen; assumption].
Qed.

Lemma X16_params_required_then_optional_witness :
  paramsString
    [paramTag "a" false []; paramTag "a.x" false []; paramTag "b" true [];
     paramTag "c" true []] = str "a[, b, c]".
Proof.
  rewrite (X16_params_required_then_optional
             [paramTag "a" false []; paramTag "a.x" false [];
              paramTag "b" true []; paramTag "c" true []]
             [paramTag "a" false []]
             [paramTag "b" true []; paramTag "c" true []]).
  - reflexivity.
  - reflexivity.
  - repeat constructor.
  - repeat constructor.
Defined.

Lemma X15_comparison_of_entities_witness :
  compareEntities
    (fst (buildEntity (fun _ => false) sampleText (str "lib.js") ∅ exampleOptions))
    (fst (buildEntity (fun _ => false) sampleText (str "lib.js") ∅
            (comment "" [declTag "callback" "done"] None 9))) = 1%Z /\
  compareEntities
    (fst (buildEntity (fun _ => false) sampleText (str "lib.js") ∅
            (comment "" [declTag "callback" "done"] None 9)))
    (fst (buildEntity (fun _ => false) sampleText (str "lib.js") ∅ exampleOptions)) = 0%Z.
Proof.
  assert (H : compareEntities
                (fst (buildEntity (fun _ => false) sampleText (str "lib.js") ∅ exampleOptions))
                (fst (buildEntity (fun _ => false) sampleText (str "lib.js") ∅
                        (comment "" [declTag "callback" "done"] None 9))) = 1%Z)
    by reflexivity.
  split; [exact H|].
  exact (proj2 (proj2 (proj2
           (X15_comparison_of_entities
              (fst (buildEntity (fun _ => false) sampleText (str "lib.js") ∅ exampleOptions))
              (fst (buildEntity (fun _ => false) sampleText (str "lib.js") ∅
                      (comment "" [declTag "callback" "done"] None 9))))
           eq_refl eq_refl)) H).
Defined.

Section LinkTargets.
Variable icaseExtra : N -> bool.
Variable nativeText : jsstring -> jsstring.

(** X17. Every entry of the index comes from a callback or typedef comment
    that is not ignored, whether or not the comment has a context. When
    that comment has no context, the output holds an entity with toBottom
    whose identifier is the one the entry maps to, so a hyperlink made
    from the entry has its target. *)
Theorem X17_link_targets (comments : list ParsedComment)
    (filename key uid : jsstring) :
  buildLinkable filename (notIgnored comments) !! key = Some uid ->
  exists m t rest,
    In m comments /\ m_ignore m = false /\ m_tags m = t :: rest /\
    isCallbackOrTypedef m = true /\ linkName t = key /\
    uid = tagUID filename t /\
    (m_ctx m = None ->
     exists e, In e (parser icaseExtra nativeText comments filename) /\
               e_uid e = Some uid /\ e_toBottom e = true).
Proof.
  intros H. apply buildLinkable_origin in H as (m & t & rest & H1 & H2 & H3 & H4 & ->).
  unfold declares in H4. rewrite H3 in H4.
  apply andb_true_iff in H4 as [H4 _].
  apply andb_true_iff in H4 as [H4 H5]. apply bool_decide_eq_true in H5.
  exists m, t, rest. repeat split; auto.
  intros Hc.
  assert (E : fst (buildEntity icaseExtra nativeText filename
                     (buildLinkable filename (notIgnored comments)) m) =
              (if hasType "typedef" t
               then setParams [] (setNotFunction (setToBottom
                      (setIdentity (tagUID filename t) (t_type t)
                         (formatStringForName (t_string t) (t_type t))
                         (baseEntity icaseExtra nativeText
                            (buildLinkable filename (notIgnored comments)) m))))
               else setToBottom
                      (setIdentity (tagUID filename t) (t_type t)
                         (formatStringForName (t_string t) (t_type t))
                         (baseEntity icaseExtra nativeText
                            (buildLinkable filename (notIgnored comments)) m)))).
  { unfold buildEntity. rewrite Hc, H4, H3. destruct (hasType "typedef" t); reflexivity. }
  eexists. split; [apply parser_In; exists m; repeat split; eauto|].
  - rewrite E. destruct (hasType "typedef" t); cbn; rewrite H3; apply andb_false_r.
  - rewrite E. destruct (hasType "typedef" t); split; reflexivity.
Qed.
End LinkTargets.

Lemma X17_link_targets_witness :
  exists e, In e (parser (fun _ => false) sampleText [exampleUser; exampleOptions] (str "lib.js")) /\
            e_uid e = Some (str "lib.js-options") /\ e_toBottom e = true.
Proof.
  destruct (X17_link_targets (fun _ => false) sampleText [exampleUser; exampleOptions]
              (str "lib.js") (str "Options") (str "lib.js-options") eq_refl)
    as (m & t & rest & Hin & _ & _ & Hcb & _ & _ & H).
  apply H. destruct Hin as [<-|[<-|[]]]; [discriminate Hcb|reflexivity].
Defined.

(** ** Typedefs and ignored comments in general *)

Section GeneralFacts.
Variable icaseExtra : N -> bool.
Variable nativeText : jsstring -> jsstring.

(** X18. A comment that is not ignored, has no context and has a typedef
    as its first tag yields an entity of the output with notFunction and
    toBottom set, the type typedef and empty parameters, whatever param
    tags it has. Unless its name, without a leading annotation in braces,
    is [__proto__], that name is a key of the index that resolves the
    types of every entity, and is mapped to the identifier of the entity
    when no later comment registers the name. *)
Theorem X18_typedef_entity (comments : list ParsedComment)
    (filename : jsstring) (m : ParsedComment) (t : Tag) (rest : list Tag) :
  In m comments -> m_ignore m = false -> m_ctx m = None ->
  m_tags m = t :: rest -> t_type t = str "typedef" ->
  let linkableObjects := buildLinkable filename (notIgnored comments) in
  let e := fst (buildEntity icaseExtra nativeText filename linkableObjects m) in
  In e (parser icaseExtra nativeText comments filename) /\
  e_notFunction e = true /\ e_toBottom e = true /\
  e_type e = Some (str "typedef") /\ e_params e = [] /\
  e_uid e = Some (tagUID filename t) /\
  e_name e = Some (formatStringForName (t_string t) (t_type t)) /\
  linkName t = stripAnnotation (formatStringForName (t_string t) (t_type t)) /\
  (linkName t <> PROTO ->
   is_Some (linkableObjects !! linkName t) /\
   (forall pre post,
      notIgnored comments = pre ++ m :: post ->
      (forall m', In m' post -> declares m' (linkName t) = false) ->
      linkableObjects !! linkName t = Some (tagUID filename t))).
Proof.
  intros Hin Hig Hctx Et Hty idx e.
  assert (Hcb : isCallbackOrTypedef m = true).
  { unfold isCallbackOrTypedef. rewrite Et. unfold hasType.
    rewrite Hty. reflexivity. }
  assert (He : e = setParams [] (setNotFunction (setToBottom
            (setIdentity (tagUID filename t) (t_type t)
               (formatStringForName (t_string t) (t_type t))
               (baseEntity icaseExtra nativeText idx m))))).
  { subst e. unfold buildEntity. rewrite Hctx, Hcb, Et.
    unfold hasType. rewrite Hty. reflexivity. }
  split.
  - apply buildEntity_kept; [apply notIgnored_In; auto|].
    rewrite Et. discriminate.
  - split; [rewrite He; reflexivity|].
    split; [rewrite He; reflexivity|].
    split; [rewrite He; cbn; rewrite Hty; reflexivity|].
    split; [rewrite He; reflexivity|].
    split; [rewrite He; reflexivity|].
    split; [rewrite He; reflexivity|].
    split; [reflexivity|].
    intros Hp. split.
    + eapply buildLinkable_registered.
      * apply notIgnored_In. eauto.
      * eapply declares_first; eauto.
    + intros pre post E Hpost. subst idx. rewrite E.
      eapply buildLinkable_last; eauto. eapply declares_first; eauto.
Qed.

(** X19. Every entry of the index that the parser builds comes from a
    callback or typedef that is not ignored. So when every callback or
    typedef of the batch that registers a name is ignored, the index has
    no entry for that name; and unless the name is that of a member
    inherited from Object.prototype, a type that refers to it is escaped,
    not linked. *)
Theorem X19_ignored_not_linkable (comments : list ParsedComment)
    (filename n type : jsstring) :
  (forall m, In m comments -> declares m n = true -> m_ignore m = true) ->
  removeUnits isBracket type = n ->
  let linkableObjects := buildLinkable filename (notIgnored comments) in
  (forall k uid, linkableObjects !! k = Some uid ->
     exists m t rest, In m comments /\ m_ignore m = false /\
       m_tags m = t :: rest /\ declares m k = true /\
       uid = tagUID filename t) /\
  linkableObjects !! n = None /\
  (inherited n = false ->
   formatStringWithLinkable icaseExtra nativeText type linkableObjects =
     escapeHtml icaseExtra n).
Proof.
  intros H Hty idx.
  assert (Hn : idx !! n = None).
  { apply buildLinkable_absent. intros m Hm.
    apply notIgnored_In in Hm as [Hm Hig].
    destruct (declares m n) eqn:E; [|reflexivity].
    rewrite (H m Hm E) in Hig. discriminate. }
  split; [intros k uid; apply buildLinkable_origin|].
  split; [exact Hn|]. intros Hi. rewrite <- Hty.
  apply formatStringWithLinkable_escapes. unfold isLinked.
  rewrite Hty, (getProperty_own _ _ Hi). fold idx. rewrite Hn. reflexivity.
Qed.
End GeneralFacts.

Lemma X18_typedef_entity_witness :
  let e :=
    fst (buildEntity (fun _ => false) sampleText (str "lib.js")
           (buildLinkable (str "lib.js") [exampleUser; exampleOptions])
           exampleOptions) in
  In e (parser (fun _ => false) sampleText [exampleUser; exampleOptions]
          (str "lib.js")) /\
  e_notFunction e = true /\ e_toBottom e = true /\
  e_type e = Some (str "typedef") /\ e_params e = [] /\
  buildLinkable (str "lib.js") [exampleUser; exampleOptions] !! str "Options" =
    Some (str "lib.js-options").
Proof.
  destruct (X18_typedef_entity (fun _ => false) sampleText
              [exampleUser; exampleOptions]
              (str "lib.js") exampleOptions (declTag "typedef" "Options")
              [paramTag "x" false []]
              (or_intror (or_introl eq_refl)) eq_refl eq_refl eq_refl eq_refl)
    as (H1 & H2 & H3 & H4 & H5 & _ & _ & _ & H6).
  split; [exact H1|]. split; [exact H2|]. split; [exact H3|].
  split; [exact H4|]. split; [exact H5|].
  assert (Hp : linkName (declTag "typedef" "Options") <> PROTO) by discriminate.
  apply (proj2 (H6 Hp) [exampleUser] []); [reflexivity|]. intros m' [].
Defined.

Lemma X19_ignored_not_linkable_witness :
  buildLinkable (str "lib.js")
    (notIgnored [exampleUser; ignored exampleOptions]) !! str "Options" = None /\
  formatStringWithLinkable (fun _ => false) sampleText (str "[Options]")
    (buildLinkable (str "lib.js")
       (notIgnored [exampleUser; ignored exampleOptions])) = str "Options".
Proof.
  assert (H : forall m, In m [exampleUser; ignored exampleOptions] ->
                declares m (str "Options") = true -> m_ignore m = true).
  { intros m [<-|[<-|[]]] H; [discriminate H|reflexivity]. }
  destruct (X19_ignored_not_linkable (fun _ => false) sampleText
              [exampleUser; ignored exampleOptions] (str "lib.js")
              (str "Options") (str "[Options]") H eq_refl) as (_ & H1 & H2).
  split; [exact H1|]. apply H2. reflexivity.
Defined.
